(** * force_ipv4.c: the IPv4-forcing resolver shim with DNS overrides

    A shallow embedding of [src/sh_cursor/template/force_ipv4.c] and the
    properties of its two functions, [lookup_override] and [getaddrinfo].

    Representation choices.
    - A C string ([const char *] pointing at a NUL-terminated array) is the
      list of its characters before the terminating NUL, so no NUL occurs
      in it; a pointer that may be [NULL] is an [option].
    - Pointer arithmetic inside a string ([p + k]) is [skipn k]; writing a
      NUL at offset [k] of a private buffer is [firstn k].
    - The C library functions the shim calls are modelled in [Module Libc];
      [inet_pton] and the real resolver are parameters of the shim.
    - [lookup_override] is embedded a second time on a memory of blocks,
      where the tokenising writes are stores into the working copy; the
      two embeddings are proved to agree. *)

From Stdlib Require Import String Ascii List NArith ZArith Bool Lia.
From Stdlib.Init Require Import Byte.
From Stdlib.Strings Require Byte.
From Equations Require Import Equations.
Import ListNotations.

Set Default Proof Using "Type".

Open Scope Z_scope.
Open Scope list_scope.

(** ** C strings *)

Definition cstring := list ascii.

(** A string literal. *)
Definition cs (s : string) : cstring := list_ascii_of_string s.
Arguments cs s%_string.

(** The terminating byte, read when indexing at the end of a string. *)
Definition NUL : ascii := Ascii.zero.

(** ** The C library, as far as the shim uses it *)

Module Libc.

Definition strlen (s : cstring) : nat := length s.

(** [strcmp]: only the sign is specified by the standard, and it is 0
    exactly at equal strings. *)
Fixpoint strcmp (a b : cstring) : Z :=
  match a, b with
  | [], [] => 0
  | [], _ :: _ => -1
  | _ :: _, [] => 1
  | c :: a', d :: b' =>
      if Ascii.eqb c d then strcmp a' b'
      else if (N_of_ascii c <? N_of_ascii d)%N then -1 else 1
  end.

(** [strchr s c]: offset of the first [c] in [s], or [NULL]. *)
Fixpoint strchr (s : cstring) (c : ascii) : option nat :=
  match s with
  | [] => None
  | d :: s' =>
      if Ascii.eqb d c then Some 0%nat
      else option_map S (strchr s' c)
  end.

Definition is_delim (delim : cstring) (c : ascii) : bool :=
  existsb (Ascii.eqb c) delim.

(** Length of the initial segment made of bytes in [accept]. *)
Fixpoint strspn (s accept : cstring) : nat :=
  match s with
  | [] => 0%nat
  | c :: s' => if is_delim accept c then S (strspn s' accept) else 0%nat
  end.

(** Length of the initial segment made of bytes not in [reject]. *)
Fixpoint strcspn (s reject : cstring) : nat :=
  match s with
  | [] => 0%nat
  | c :: s' => if is_delim reject c then 0%nat else S (strcspn s' reject)
  end.

(** [strtok_r str delim &saveptr]: the next token and the new value of
    [saveptr].  With [str = NULL] the scan resumes at [saveptr].  Leading
    delimiters are skipped; the token ends at the next delimiter, which is
    overwritten by NUL, or at the end of the string. *)
Definition strtok_r (str : option cstring) (delim saveptr : cstring)
  : option cstring * cstring :=
  let s := match str with Some s => s | None => saveptr end in
  let s := skipn (strspn s delim) s in
  match s with
  | [] => (None, s)
  | _ :: _ =>
      let n := strcspn s delim in
      match skipn n s with
      | [] => (Some s, [])
      | _ :: rest => (Some (firstn n s), rest)
      end
  end.

(** [strdup]: a fresh copy, or [NULL] when the allocation fails.
    [heap_ok] says whether the allocator can serve the request. *)
Definition strdup (heap_ok : bool) (s : cstring) : option cstring :=
  if heap_ok then Some s else None.

(** The process environment: [NAME=value] bindings, first one wins. *)
Definition environ := list (cstring * cstring).

Fixpoint getenv (e : environ) (name : cstring) : option cstring :=
  match e with
  | [] => None
  | (n, v) :: e' => if strcmp n name =? 0 then Some v else getenv e' name
  end.

(** [struct in_addr]: the four octets of [s_addr], in network order. *)
Record in_addr : Type := mk_in_addr {
  octet0 : Byte.byte; octet1 : Byte.byte; octet2 : Byte.byte; octet3 : Byte.byte
}.
Arguments mk_in_addr (_ _ _ _)%_byte.

(** [struct addrinfo] of <netdb.h>; pointers are addresses, 0 is NULL. *)
Record addrinfo : Type := mk_addrinfo {
  ai_flags : Z;
  ai_family : Z;
  ai_socktype : Z;
  ai_protocol : Z;
  ai_addrlen : Z;
  ai_addr : Z;
  ai_canonname : Z;
  ai_next : Z
}.

(** Constants of the Linux headers. *)
Definition AF_UNSPEC : Z := 0.
Definition AF_INET : Z := 2.
Definition AF_INET6 : Z := 10.
Definition SOCK_STREAM : Z := 1.
Definition SOCK_DGRAM : Z := 2.
Definition AI_PASSIVE : Z := 1.
Definition AI_CANONNAME : Z := 2.
Definition AI_NUMERICHOST : Z := 4.
Definition INET_ADDRSTRLEN : nat := 16.

(** [(struct addrinfo){0}] *)
Definition addrinfo_zero : addrinfo := mk_addrinfo 0 0 0 0 0 0 0 0.

Definition digit (d : N) : ascii := ascii_of_N (48 + d).

(** [%u] of one octet. *)
Definition dec_octet (n : N) : cstring :=
  if (n <? 10)%N then [digit n]
  else if (n <? 100)%N then [digit (n / 10); digit (n mod 10)]
  else [digit (n / 100); digit ((n / 10) mod 10); digit (n mod 10)].

(** [inet_ntop(AF_INET, a, buf, size)]: dotted decimal. *)
Definition inet_ntop (a : in_addr) : cstring :=
  dec_octet (Byte.to_N (octet0 a)) ++ cs "." ++
  dec_octet (Byte.to_N (octet1 a)) ++ cs "." ++
  dec_octet (Byte.to_N (octet2 a)) ++ cs "." ++
  dec_octet (Byte.to_N (octet3 a)).

Definition is_digit (c : ascii) : bool :=
  ((48 <=? N_of_ascii c) && (N_of_ascii c <=? 57))%N.

(** The scanning loop of [inet_pton(AF_INET, ...)]: [done] are the octets
    already closed by a dot, [cur] the octet being read, [saw_digit]
    whether it has a digit yet, [octets] how many octets were started. *)
Fixpoint inet_pton4_loop (src : cstring) (done : list N) (cur : N)
    (saw_digit : bool) (octets : nat) : option in_addr :=
  match src with
  | [] =>
      if (octets <? 4)%nat then None
      else match map Byte.of_N (done ++ [cur]) with
           | [Some a; Some b; Some c; Some d] => Some (mk_in_addr a b c d)
           | _ => None
           end
  | ch :: src' =>
      if is_digit ch then
        let new := (cur * 10 + (N_of_ascii ch - 48))%N in
        if saw_digit && (cur =? 0)%N then None
        else if (255 <? new)%N then None
        else if saw_digit then inet_pton4_loop src' done new true octets
        else if (4 <? S octets)%nat then None
        else inet_pton4_loop src' done new true (S octets)
      else if Ascii.eqb ch "."%char && saw_digit then
        if (octets =? 4)%nat then None
        else inet_pton4_loop src' (done ++ [cur]) 0%N false octets
      else None
  end.

(** [inet_pton(AF_INET, src, dst) == 1], with the address written to
    [dst]; [None] when the text is not a dotted-decimal address (and
    [dst] is left alone). *)
Definition inet_pton4 (src : cstring) : option in_addr :=
  inet_pton4_loop src [] 0%N false 0%nat.

End Libc.

Import Libc.

(** ** The shim *)

(** What one pass through the body of the [for] loop does: fall through to
    the next token, or leave the loop with [found] set to the outcome of
    [inet_pton] ([Some a]: returned 1 and wrote [a]). *)
Inductive outcome : Type :=
| Continue
| Break (found : option in_addr).

Section Shim.

(** [inet_pton (AF_INET, ip, addr)] of the C library. *)
Variable inet_pton : cstring -> option in_addr.

(** The loop body of [lookup_override], lines 37-57. *)
Definition lookup_entry (node tok : cstring) : outcome :=
  match strchr tok "="%char with
  | None => Continue
  | Some eq =>
      let host := firstn eq tok in
      let ip := skipn (S eq) tok in
      if strcmp host node =? 0 then Break (inet_pton ip)
      else if Ascii.eqb (nth 0 host NUL) "*"%char
              && Ascii.eqb (nth 1 host NUL) "."%char then
        let suffix := skipn 1 host in
        let slen := strlen suffix in
        let nlen := strlen node in
        if (slen <=? nlen)%nat
           && (strcmp (skipn (nlen - slen) node) suffix =? 0)
        then Break (inet_pton ip)
        else Continue
      else Continue
  end.

Definition pending (tok : option cstring) : nat :=
  match tok with Some _ => 1%nat | None => 0%nat end.

(** The [for] loop of [lookup_override], entered with the token and
    [saveptr] left by the previous call of [strtok_r]; its value is
    [found] at [free (buf)]. *)
Equations? lookup_loop (node : cstring) (tok : option cstring)
    (saveptr : cstring) : option in_addr
  by wf (length saveptr + pending tok)%nat lt :=
  lookup_loop node None _ := None;
  lookup_loop node (Some t) saveptr with lookup_entry node t := {
    | Break found => found
    | Continue =>
        lookup_loop node (fst (strtok_r None (cs ",") saveptr))
                         (snd (strtok_r None (cs ",") saveptr)) }.
Proof.
  unfold strtok_r.
  match goal with
  | |- context [skipn ?n saveptr] =>
      pose proof (length_skipn n saveptr) as H1;
      destruct (skipn n saveptr) as [|c s]
  end.
  - cbn [fst snd length pending]; lia.
  - match goal with
    | |- context [skipn ?n (c :: s)] =>
        pose proof (length_skipn n (c :: s)) as H2;
        destruct (skipn n (c :: s)) as [|d r]
    end; cbn [fst snd length pending] in *; lia.
Qed.

(** [lookup_override (node, addr)], in the process environment [e]:
    [Some a] when it returns 1 having written [a] to [*addr]. *)
Definition lookup_override (e : environ) (heap_ok : bool)
    (node : option cstring) : option in_addr :=
  match getenv e (cs "CURSOR_DNS_OVERRIDES"), node with
  | Some env, Some node =>
      match strdup heap_ok env with
      | None => None
      | Some buf =>
          let '(tok, saveptr) := strtok_r (Some buf) (cs ",") [] in
          lookup_loop node tok saveptr
      end
  | _, _ => None
  end.

(** The real resolver: host name, service, hints and the [res] out
    pointer; [R] is whatever it gives back (status, the list stored
    through [res], its effects). *)
Variables (res_ptr R : Type).

Definition resolver : Type :=
  option cstring -> option cstring -> option addrinfo -> res_ptr -> R.

(** [dlsym (RTLD_NEXT, name)] *)
Variable dlsym_next : cstring -> option resolver.

(** Lines 70-71: the static [real_getaddrinfo] after the lazy binding. *)
Definition bind_real (real_getaddrinfo : option resolver)
  : option resolver :=
  match real_getaddrinfo with
  | Some f => Some f
  | None => dlsym_next (cs "getaddrinfo")
  end.

(** A call through the function pointer; through NULL it is undefined. *)
Definition call (f : option resolver) (node service : option cstring)
    (hints : option addrinfo) (res : res_ptr) : option R :=
  match f with
  | Some real => Some (real node service hints res)
  | None => None
  end.

(** [getaddrinfo (node, service, hints, res)]: the new value of the static
    [real_getaddrinfo] and what the call returns. *)
Definition getaddrinfo (real_getaddrinfo : option resolver)
    (e : environ) (heap_ok : bool)
    (node service : option cstring) (hints : option addrinfo)
    (res : res_ptr) : option resolver * option R :=
  let real_getaddrinfo := bind_real real_getaddrinfo in
  let override :=
    match node with
    | Some _ => lookup_override e heap_ok node
    | None => None
    end in
  match override with
  | Some override_addr =>
      let override_hints :=
        {| ai_flags := AI_NUMERICHOST;
           ai_family := AF_INET;
           ai_socktype :=
             match hints with Some h => ai_socktype h | None => SOCK_STREAM end;
           ai_protocol :=
             match hints with Some h => ai_protocol h | None => 0 end;
           ai_addrlen := 0; ai_addr := 0; ai_canonname := 0; ai_next := 0 |} in
      let ip_str := inet_ntop override_addr in
      (real_getaddrinfo,
       call real_getaddrinfo (Some ip_str) service (Some override_hints) res)
  | None =>
      let modified_hints :=
        match hints with Some h => h | None => addrinfo_zero end in
      let modified_hints :=
        {| ai_flags := ai_flags modified_hints;
           ai_family := AF_INET;
           ai_socktype := ai_socktype modified_hints;
           ai_protocol := ai_protocol modified_hints;
           ai_addrlen := ai_addrlen modified_hints;
           ai_addr := ai_addr modified_hints;
           ai_canonname := ai_canonname modified_hints;
           ai_next := ai_next modified_hints |} in
      (real_getaddrinfo,
       call real_getaddrinfo node service (Some modified_hints) res)
  end.

End Shim.


Arguments lookup_entry inet_pton node tok : simpl never.
Arguments bind_real {res_ptr R} dlsym_next real_getaddrinfo.
Arguments call {res_ptr R} f node service hints res.
Arguments getaddrinfo inet_pton {res_ptr R} dlsym_next real_getaddrinfo
  e heap_ok node service hints res.

(** ** The vocabulary of the specification *)

(** The name of the configuration variable. *)
Definition CURSOR_DNS_OVERRIDES : cstring := cs "CURSOR_DNS_OVERRIDES".

(** A configuration string is a comma-separated list of entries. *)
Fixpoint join (entries : list cstring) : cstring :=
  match entries with
  | [] => []
  | [t] => t
  | t :: rest => t ++ ","%char :: join rest
  end.

Definition comma_free (t : cstring) : Prop := ~ In ","%char t.

(** An entry [pattern=ip]: the pattern runs up to the first [=]. *)
Definition entry (pattern ip : cstring) : cstring :=
  pattern ++ "="%char :: ip.

Definition is_pattern (p : cstring) : Prop :=
  ~ In "="%char p /\ comma_free p.

(** [h]'s length is at least the length of [suffix] and the trailing bytes
    of [h] equal [suffix]. *)
Definition ends_with (h suffix : cstring) : Prop :=
  (length suffix <= length h)%nat /\
  skipn (length h - length suffix) h = suffix.

Definition ends_withb (h suffix : cstring) : bool :=
  (length suffix <=? length h)%nat
  && if list_eq_dec ascii_dec (skipn (length h - length suffix) h) suffix
     then true else false.

(** A pattern matches a host name when it equals it, or when it is
    [*.suffix] and the host name ends with [.suffix]. *)
Definition pattern_matches (pattern h : cstring) : Prop :=
  pattern = h \/
  exists suffix, pattern = cs "*." ++ suffix /\ ends_with h ("."%char :: suffix).

(** An entry matches when it has an [=] and its pattern matches. *)
Definition entry_matches (t h : cstring) : Prop :=
  exists pattern ip,
    t = entry pattern ip /\ ~ In "="%char pattern /\ pattern_matches pattern h.

(** The scan of the entries, first match wins: what [lookup_loop] computes
    on the tokens of the working copy. *)
Fixpoint scan (inet_pton : cstring -> option in_addr) (node : cstring)
    (entries : list cstring) : option in_addr :=
  match entries with
  | [] => None
  | t :: rest =>
      match lookup_entry inet_pton node t with
      | Break found => found
      | Continue => scan inet_pton node rest
      end
  end.

(** The loop of [lookup_override] from its first [strtok_r]. *)
Definition run (inet_pton : cstring -> option in_addr) (node buf : cstring)
  : option in_addr :=
  let '(tok, saveptr) := strtok_r (Some buf) (cs ",") [] in
  lookup_loop inet_pton node tok saveptr.

(** [h] with its address family replaced. *)
Definition with_family (fam : Z) (h : addrinfo) : addrinfo :=
  {| ai_flags := ai_flags h;
     ai_family := fam;
     ai_socktype := ai_socktype h;
     ai_protocol := ai_protocol h;
     ai_addrlen := ai_addrlen h;
     ai_addr := ai_addr h;
     ai_canonname := ai_canonname h;
     ai_next := ai_next h |}.

(** An environment that binds only the configuration variable. *)
Definition env_of (cfg : cstring) : environ := [(CURSOR_DNS_OVERRIDES, cfg)].

(** The match result does not depend on the process environment: the
    function does not read it. *)
Definition independent_of_environment
    (lookup : environ -> bool -> option cstring -> option in_addr) : Prop :=
  forall e1 e2 heap node, lookup e1 heap node = lookup e2 heap node.

(** A stand-in for the real resolver that reports the request it is given. *)
Definition request : Type :=
  option cstring * option cstring * option addrinfo.

Definition echo : resolver unit request :=
  fun node service hints _ => (node, service, hints).

Definition dlsym_echo (name : cstring) : option (resolver unit request) :=
  if strcmp name (cs "getaddrinfo") =? 0 then Some echo else None.

(** The entries of a configuration string: the pieces between its commas,
    empty ones included. *)
Fixpoint split_commas (s : cstring) : list cstring :=
  match s with
  | [] => [[]]
  | c :: s' =>
      if Ascii.eqb c ","%char then [] :: split_commas s'
      else match split_commas s' with
           | [] => [[c]]
           | t :: rest => (c :: t) :: rest
           end
  end.

(** The text of octets each closed by a dot. *)
Definition dotted (done : list N) : cstring :=
  concat (map (fun d => dec_octet d ++ cs ".") done).

(** ** The lookup on memory

    A second embedding of [lookup_override], at the level of the objects it
    reads and writes: the strings of the environment, the host name, and
    the working copy that [strtok_r] and [*eq = '\0'] cut in place.  A
    result [None] is an access outside a live block, which the C program
    must not make. *)

(** Memory is a list of blocks; a block holds its bytes, terminators
    included, or nothing once it is freed. *)
Definition memory : Type := list (option (list ascii)).

(** A pointer: a block and an offset in it. *)
Record ptr : Type := mk_ptr { blk : nat; off : nat }.

(** [p + k] *)
Definition shift (p : ptr) (k : nat) : ptr := mk_ptr (blk p) (off p + k).

Fixpoint update {A : Type} (n : nat) (x : A) (l : list A) : list A :=
  match l, n with
  | [], _ => []
  | _ :: l', O => x :: l'
  | y :: l', S n' => y :: update n' x l'
  end.

Definition bytes_of (m : memory) (b : nat) : option (list ascii) :=
  match nth_error m b with
  | Some (Some bs) => Some bs
  | _ => None
  end.

(** [*p] *)
Definition load (m : memory) (p : ptr) : option ascii :=
  match bytes_of m (blk p) with
  | Some bs => nth_error bs (off p)
  | None => None
  end.

(** [*p = c] *)
Definition store (m : memory) (p : ptr) (c : ascii) : option memory :=
  match bytes_of m (blk p) with
  | Some bs =>
      if (off p <? length bs)%nat
      then Some (update (blk p) (Some (update (off p) c bs)) m)
      else None
  | None => None
  end.

Fixpoint until_nul (bs : list ascii) : option cstring :=
  match bs with
  | [] => None
  | c :: bs' =>
      if Ascii.eqb c NUL then Some []
      else option_map (cons c) (until_nul bs')
  end.

(** The C string at [p]: the bytes from [p] up to the first NUL. *)
Definition string_at (m : memory) (p : ptr) : option cstring :=
  match bytes_of m (blk p) with
  | Some bs => until_nul (skipn (off p) bs)
  | None => None
  end.

(** [malloc]: a fresh block with the given bytes. *)
Definition alloc (m : memory) (bs : list ascii) : ptr * memory :=
  (mk_ptr (length m) 0, m ++ [Some bs]).

(** [free (p)] *)
Definition free (m : memory) (p : ptr) : memory := update (blk p) None m.

(** The C library functions on memory: they read their string arguments
    where the pointers say, and [strtok_r] writes its NUL there. *)
Definition strlen_m (m : memory) (p : ptr) : option nat :=
  option_map (@length ascii) (string_at m p).

Definition strcmp_m (m : memory) (p q : ptr) : option Z :=
  match string_at m p, string_at m q with
  | Some a, Some b => Some (strcmp a b)
  | _, _ => None
  end.

Definition strchr_m (m : memory) (p : ptr) (c : ascii) : option (option ptr) :=
  match string_at m p with
  | Some s => Some (option_map (shift p) (strchr s c))
  | None => None
  end.

Definition strdup_m (heap_ok : bool) (m : memory) (p : ptr)
  : option (option ptr * memory) :=
  match string_at m p with
  | Some s =>
      if heap_ok
      then let '(q, m') := alloc m (s ++ [NUL]) in Some (Some q, m')
      else Some (None, m)
  | None => None
  end.

(** [strtok_r (str, delim, &saveptr)]: the token, the new [saveptr] and the
    memory, in which the delimiter that ends the token is overwritten. *)
Definition strtok_r_m (m : memory) (str : option ptr) (delim : cstring)
    (saveptr : ptr) : option (option ptr * ptr * memory) :=
  let s := match str with Some s => s | None => saveptr end in
  match string_at m s with
  | None => None
  | Some txt =>
      let s := shift s (strspn txt delim) in
      match string_at m s with
      | None => None
      | Some [] => Some (None, s, m)
      | Some (c :: t) =>
          let end_ := shift s (strcspn (c :: t) delim) in
          match load m end_ with
          | None => None
          | Some ch =>
              if Ascii.eqb ch NUL then Some (Some s, end_, m)
              else match store m end_ NUL with
                   | Some m' => Some (Some s, shift end_ 1, m')
                   | None => None
                   end
          end
      end
  end.

(** The environment: the names, and where the values are. *)
Definition environ_m : Type := list (cstring * ptr).

Fixpoint getenv_m (e : environ_m) (name : cstring) : option ptr :=
  match e with
  | [] => None
  | (n, v) :: e' => if strcmp n name =? 0 then Some v else getenv_m e' name
  end.

Section ShimOnMemory.

(** [inet_pton (AF_INET, ip, addr)] of the C library. *)
Variable inet_pton : cstring -> option in_addr.

(** The loop body, lines 37-57. *)
Definition lookup_entry_m (m : memory) (node tok : ptr)
  : option (outcome * memory) :=
  match strchr_m m tok "="%char with
  | None => None
  | Some None => Some (Continue, m)
  | Some (Some eq) =>
      match store m eq NUL with
      | None => None
      | Some m =>
          let host := tok in
          let ip := shift eq 1 in
          match strcmp_m m host node with
          | None => None
          | Some c =>
              if c =? 0 then
                match string_at m ip with
                | Some s => Some (Break (inet_pton s), m)
                | None => None
                end
              else
                match load m host with
                | None => None
                | Some h0 =>
                    if Ascii.eqb h0 "*"%char then
                      match load m (shift host 1) with
                      | None => None
                      | Some h1 =>
                          if Ascii.eqb h1 "."%char then
                            let suffix := shift host 1 in
                            match strlen_m m suffix, strlen_m m node with
                            | Some slen, Some nlen =>
                                if (slen <=? nlen)%nat then
                                  match strcmp_m m (shift node (nlen - slen))
                                          suffix with
                                  | None => None
                                  | Some c' =>
                                      if c' =? 0 then
                                        match string_at m ip with
                                        | Some s =>
                                            Some (Break (inet_pton s), m)
                                        | None => None
                                        end
                                      else Some (Continue, m)
                                  end
                                else Some (Continue, m)
                            | _, _ => None
                            end
                          else Some (Continue, m)
                      end
                    else Some (Continue, m)
                end
          end
      end
  end.

(** The [for] loop, with a bound on its turns: each turn takes a token of
    at least one byte from the working copy. *)
Fixpoint lookup_loop_m (turns : nat) (m : memory) (node : ptr)
    (tok : option ptr) (saveptr : ptr) : option (option in_addr * memory) :=
  match tok with
  | None => Some (None, m)
  | Some t =>
      match turns with
      | O => None
      | S turns' =>
          match lookup_entry_m m node t with
          | None => None
          | Some (Break found, m) => Some (found, m)
          | Some (Continue, m) =>
              match strtok_r_m m None (cs ",") saveptr with
              | None => None
              | Some (tok', saveptr', m) =>
                  lookup_loop_m turns' m node tok' saveptr'
              end
          end
      end
  end.

(** [lookup_override (node, addr)] in environment [e] and memory [m]: what
    it returns ([Some a]: 1, with [a] written to [*addr]) and the memory it
    leaves.  [saveptr] is the uninitialised local. *)
Definition lookup_override_m (e : environ_m) (heap_ok : bool) (m : memory)
    (saveptr : ptr) (node : option ptr) : option (option in_addr * memory) :=
  match getenv_m e (cs "CURSOR_DNS_OVERRIDES"), node with
  | Some env, Some node =>
      match strdup_m heap_ok m env with
      | None => None
      | Some (None, m) => Some (None, m)
      | Some (Some buf, m) =>
          match strlen_m m buf with
          | None => None
          | Some turns =>
              match strtok_r_m m (Some buf) (cs ",") saveptr with
              | None => None
              | Some (tok, saveptr, m) =>
                  match lookup_loop_m turns m node tok saveptr with
                  | None => None
                  | Some (found, m) => Some (found, free m buf)
                  end
              end
          end
      end
  | _, _ => Some (None, m)
  end.

End ShimOnMemory.

Definition nul_free (s : cstring) : Prop := ~ In NUL s.

(** The loop from a [strtok_r] call that resumes at [saveptr]. *)
Definition run_m (inet_pton : cstring -> option in_addr) (turns : nat)
    (m : memory) (node saveptr : ptr) : option (option in_addr * memory) :=
  match strtok_r_m m None (cs ",") saveptr with
  | None => None
  | Some (tok, saveptr', m') => lookup_loop_m inet_pton turns m' node tok saveptr'
  end.

(** A memory for closed instances: the configuration string in block 0 and
    the host name in block 1. *)
Definition memory_of (cfg node : cstring) : memory :=
  [Some (cfg ++ [NUL]); Some (node ++ [NUL])].

Definition environ_at (p : ptr) : environ_m := [(CURSOR_DNS_OVERRIDES, p)].

(** ** The C library functions *)

Lemma strcmp_refl a : strcmp a a = 0.
Proof.
  induction a as [|c a IH]; cbn; [reflexivity|].
  now rewrite Ascii.eqb_refl.
Qed.

Lemma strcmp_eq a b : strcmp a b = 0 <-> a = b.
Proof.
  split; [|intros ->; apply strcmp_refl].
  revert b; induction a as [|c a IH]; intros [|d b]; cbn; try discriminate;
    [reflexivity|].
  destruct (Ascii.eqb_spec c d) as [->|Hne].
  - intros H. f_equal. now apply IH.
  - destruct (N_of_ascii c <? N_of_ascii d)%N; discriminate.
Qed.

Lemma strcmp_eqb a b : (strcmp a b =? 0) = true <-> a = b.
Proof. rewrite Z.eqb_eq. apply strcmp_eq. Qed.

Lemma strchr_none s c : ~ In c s -> strchr s c = None.
Proof.
  induction s as [|d s IH]; cbn; [reflexivity|].
  intros H. destruct (Ascii.eqb_spec d c) as [->|Hne]; [tauto|].
  rewrite IH; [reflexivity | tauto].
Qed.

Lemma strchr_first h c r : ~ In c h -> strchr (h ++ c :: r) c = Some (length h).
Proof.
  induction h as [|d h IH]; cbn; intros H.
  - now rewrite Ascii.eqb_refl.
  - destruct (Ascii.eqb_spec d c) as [->|Hne]; [tauto|].
    rewrite IH; [reflexivity | tauto].
Qed.

Lemma strchr_some s c i :
  strchr s c = Some i ->
  s = firstn i s ++ c :: skipn (S i) s /\ ~ In c (firstn i s).
Proof.
  revert i; induction s as [|d s IH]; cbn; [discriminate|].
  intros i. destruct (Ascii.eqb_spec d c) as [->|Hne].
  - intros [= <-]. cbn. tauto.
  - destruct (strchr s c) as [j|] eqn:E; cbn; [|discriminate].
    intros [= <-]. destruct (IH j eq_refl) as [H1 H2].
    cbn [firstn skipn app]. split.
    + f_equal. exact H1.
    + intros [H|H]; [congruence | tauto].
Qed.

Lemma is_delim_comma c : is_delim (cs ",") c = Ascii.eqb c ","%char.
Proof. cbn. apply orb_false_r. Qed.

Lemma strcspn_comma_free t r :
  comma_free t -> strcspn (t ++ r) (cs ",") = (length t + strcspn r (cs ","))%nat.
Proof.
  induction t as [|c t IH]; intros H; [reflexivity|].
  cbn [app strcspn length]. rewrite is_delim_comma.
  destruct (Ascii.eqb_spec c ","%char) as [->|Hne].
  - exfalso. apply H. now left.
  - rewrite IH; [reflexivity|]. intros Hin. apply H. now right.
Qed.

Lemma strtok_r_resume buf sp :
  strtok_r (Some buf) (cs ",") sp = strtok_r None (cs ",") buf.
Proof. reflexivity. Qed.

Lemma strtok_r_skip s :
  strtok_r None (cs ",") (","%char :: s) = strtok_r None (cs ",") s.
Proof. reflexivity. Qed.

Lemma strtok_r_token c t s :
  comma_free (c :: t) ->
  strtok_r None (cs ",") ((c :: t) ++ ","%char :: s) = (Some (c :: t), s).
Proof.
  intros H. unfold strtok_r.
  assert (Hc : is_delim (cs ",") c = false).
  { rewrite is_delim_comma. apply eqb_neq. intros ->. apply H. now left. }
  cbn [app strspn]. rewrite Hc. cbn [skipn].
  change (c :: t ++ ","%char :: s) with ((c :: t) ++ ","%char :: s).
  rewrite (strcspn_comma_free (c :: t) (","%char :: s) H).
  cbn [strcspn]. rewrite is_delim_comma, Ascii.eqb_refl, Nat.add_0_r.
  remember (c :: t) as l eqn:El.
  rewrite skipn_app, skipn_all, Nat.sub_diag, firstn_app, firstn_all,
    Nat.sub_diag.
  cbn [skipn firstn app]. rewrite app_nil_r. subst l. reflexivity.
Qed.

Lemma strtok_r_last c t :
  comma_free (c :: t) ->
  strtok_r None (cs ",") (c :: t) = (Some (c :: t), []).
Proof.
  intros H. unfold strtok_r.
  assert (Hc : is_delim (cs ",") c = false).
  { rewrite is_delim_comma. apply eqb_neq. intros ->. apply H. now left. }
  cbn [strspn]. rewrite Hc. cbn [skipn].
  pose proof (strcspn_comma_free (c :: t) [] H) as E.
  rewrite app_nil_r in E. rewrite E. cbn [strcspn]. rewrite Nat.add_0_r.
  now rewrite skipn_all.
Qed.

(** ** Patterns and suffixes *)

Lemma ends_withb_spec h suffix :
  ends_withb h suffix = true <-> ends_with h suffix.
Proof.
  unfold ends_withb, ends_with.
  rewrite andb_true_iff, Nat.leb_le.
  destruct (list_eq_dec ascii_dec
              (skipn (length h - length suffix) h) suffix); intuition congruence.
Qed.

Lemma ends_with_app h suffix :
  ends_with h suffix <-> exists p, h = p ++ suffix.
Proof.
  unfold ends_with; split.
  - intros [Hl Hs]. exists (firstn (length h - length suffix) h).
    pose proof (firstn_skipn (length h - length suffix) h) as E.
    rewrite Hs in E. now symmetry.
  - intros [p ->]. rewrite length_app. split; [lia|].
    replace (length p + length suffix - length suffix)%nat
      with (length p) by lia.
    now rewrite skipn_app, skipn_all, Nat.sub_diag.
Qed.

(** The wildcard test of lines 49-53 on a pattern. *)
Lemma wildcard_test host :
  Ascii.eqb (nth 0 host NUL) "*"%char && Ascii.eqb (nth 1 host NUL) "."%char
  = true <-> exists suffix, host = cs "*." ++ suffix.
Proof.
  rewrite andb_true_iff, !Ascii.eqb_eq. split.
  - destruct host as [|a [|b suffix]]; cbn; intros [H1 H2];
      try discriminate.
    subst. now exists suffix.
  - intros [suffix ->]. now cbn.
Qed.

Lemma entry_inj p ip p' ip' :
  ~ In "="%char p -> ~ In "="%char p' ->
  entry p ip = entry p' ip' -> p = p' /\ ip = ip'.
Proof.
  unfold entry. revert p'; induction p as [|c p IH]; intros [|c' p'];
    cbn [app In]; intros H H' E.
  - injection E as E. now split.
  - injection E as E1 E2. subst c'. tauto.
  - injection E as E1 E2. subst c. tauto.
  - injection E as E1 E2. subst c'. destruct (IH p') as [-> ->]; tauto.
Qed.

Lemma wildcard_matches suffix node :
  pattern_matches (cs "*." ++ suffix) node
  <-> ends_with node ("."%char :: suffix).
Proof.
  split.
  - intros [E|[suffix' [E H]]].
    + rewrite <- E. apply ends_with_app. now exists [ "*"%char ].
    + apply app_inv_head in E. now subst suffix'.
  - intros H. right. now exists suffix.
Qed.

(** ** The loop of [lookup_override] *)

Section Loop.

Variable inet_pton : cstring -> option in_addr.

Lemma lookup_entry_nil node : lookup_entry inet_pton node [] = Continue.
Proof. reflexivity. Qed.

(** One turn of the loop, from the [strtok_r] call that opens it. *)
Lemma run_unfold node buf :
  run inet_pton node buf =
  match strtok_r None (cs ",") buf with
  | (None, _) => None
  | (Some t, saveptr) =>
      match lookup_entry inet_pton node t with
      | Break found => found
      | Continue => run inet_pton node saveptr
      end
  end.
Proof.
  unfold run. rewrite strtok_r_resume.
  destruct (strtok_r None (cs ",") buf) as [[t|] saveptr].
  - simp lookup_loop.
    destruct (lookup_entry inet_pton node t); cbn; [|reflexivity].
    change [","%char] with (cs ",").
    rewrite strtok_r_resume.
    destruct (strtok_r None (cs ",") saveptr); reflexivity.
  - now simp lookup_loop.
Qed.

Lemma run_nil node : run inet_pton node [] = None.
Proof. now rewrite run_unfold. Qed.

Lemma run_skip node s :
  run inet_pton node (","%char :: s) = run inet_pton node s.
Proof. now rewrite (run_unfold node s), run_unfold, strtok_r_skip. Qed.

Lemma run_token node t s :
  comma_free t ->
  run inet_pton node (t ++ ","%char :: s) =
  match lookup_entry inet_pton node t with
  | Break found => found
  | Continue => run inet_pton node s
  end.
Proof.
  intros H. destruct t as [|c t].
  - cbn [app]. now rewrite run_skip, lookup_entry_nil.
  - now rewrite run_unfold, strtok_r_token.
Qed.

Lemma run_last node t :
  comma_free t ->
  run inet_pton node t =
  match lookup_entry inet_pton node t with
  | Break found => found
  | Continue => None
  end.
Proof.
  intros H. destruct t as [|c t].
  - now rewrite run_nil, lookup_entry_nil.
  - now rewrite run_unfold, strtok_r_last.
Qed.

(** On a comma-separated list of entries the loop is the first-match scan
    of the entries, left to right. *)
Lemma run_join node entries :
  Forall comma_free entries ->
  run inet_pton node (join entries) = scan inet_pton node entries.
Proof.
  induction 1 as [|t rest Ht Hrest IH]; [apply run_nil|].
  destruct rest as [|u rest].
  - cbn [join scan]. now apply run_last.
  - change (join (t :: u :: rest)) with (t ++ ","%char :: join (u :: rest)).
    rewrite run_token by assumption. cbn [scan].
    destruct (lookup_entry inet_pton node t); [exact IH | reflexivity].
Qed.

Lemma lookup_override_run e node cfg :
  getenv e CURSOR_DNS_OVERRIDES = Some cfg ->
  lookup_override inet_pton e true (Some node) = run inet_pton node cfg.
Proof.
  intros H. unfold lookup_override.
  change (cs "CURSOR_DNS_OVERRIDES") with CURSOR_DNS_OVERRIDES.
  rewrite H. reflexivity.
Qed.

Lemma lookup_override_scan e node entries :
  getenv e CURSOR_DNS_OVERRIDES = Some (join entries) ->
  Forall comma_free entries ->
  lookup_override inet_pton e true (Some node)
  = scan inet_pton node entries.
Proof.
  intros H F. rewrite (lookup_override_run _ _ _ H). now apply run_join.
Qed.

Lemma scan_app_continue node pre rest :
  Forall (fun t => lookup_entry inet_pton node t = Continue) pre ->
  scan inet_pton node (pre ++ rest) = scan inet_pton node rest.
Proof.
  induction 1 as [|t pre Ht _ IH]; [reflexivity|].
  cbn [app scan]. now rewrite Ht.
Qed.

(** *** The loop body against the matching rule of the specification *)

Lemma lookup_entry_no_eq node t :
  ~ In "="%char t -> lookup_entry inet_pton node t = Continue.
Proof.
  intros H. unfold lookup_entry. now rewrite strchr_none.
Qed.

(** An entry with an [=]: the loop stops there exactly when its pattern
    matches, with [found] the outcome of parsing its address. *)
Lemma lookup_entry_entry node pattern ip :
  ~ In "="%char pattern ->
  (pattern_matches pattern node ->
   lookup_entry inet_pton node (entry pattern ip) = Break (inet_pton ip)) /\
  (~ pattern_matches pattern node ->
   lookup_entry inet_pton node (entry pattern ip) = Continue).
Proof.
  intros Hp. unfold lookup_entry, entry.
  rewrite (strchr_first pattern "="%char ip Hp).
  rewrite firstn_app, firstn_all, Nat.sub_diag.
  replace (skipn (S (length pattern)) (pattern ++ "="%char :: ip)) with ip
    by (rewrite skipn_app, skipn_all2, Nat.sub_succ_l, Nat.sub_diag by lia;
        reflexivity).
  cbn [firstn]. rewrite app_nil_r.
  destruct (strcmp pattern node =? 0) eqn:Ecmp.
  { apply strcmp_eqb in Ecmp. split; [reflexivity|].
    intros H. exfalso. apply H. now left. }
  assert (Hne : pattern <> node).
  { intros ->. now rewrite (proj2 (strcmp_eqb node node) eq_refl) in Ecmp. }
  destruct (Ascii.eqb (nth 0 pattern NUL) "*"%char
            && Ascii.eqb (nth 1 pattern NUL) "."%char) eqn:Ew.
  - apply wildcard_test in Ew. destruct Ew as [suffix ->].
    change (skipn 1 (cs "*." ++ suffix)) with ("."%char :: suffix).
    unfold strlen.
    destruct ((length ("."%char :: suffix) <=? length node)%nat
              && (strcmp (skipn (length node - length ("."%char :: suffix)) node)
                         ("."%char :: suffix) =? 0)) eqn:Et.
    + split; [reflexivity|]. intros H. exfalso. apply H. right.
      exists suffix. split; [reflexivity|].
      apply andb_true_iff in Et. destruct Et as [Hl Hs].
      apply Nat.leb_le in Hl. apply strcmp_eqb in Hs. now split.
    + split; [|reflexivity]. intros [H|[suffix' [E [Hl Hs]]]]; [tauto|].
      apply app_inv_head in E. subst suffix'.
      apply Nat.leb_le in Hl. rewrite Hl in Et. cbn [andb] in Et.
      now rewrite (proj2 (strcmp_eqb _ _) Hs) in Et.
  - split; [|reflexivity]. intros [H|[suffix [E _]]]; [tauto|].
    assert (Hw : Ascii.eqb (nth 0 pattern NUL) "*"%char
                 && Ascii.eqb (nth 1 pattern NUL) "."%char = true)
      by (apply wildcard_test; now exists suffix).
    congruence.
Qed.

Lemma lookup_entry_match node pattern ip :
  ~ In "="%char pattern -> pattern_matches pattern node ->
  lookup_entry inet_pton node (entry pattern ip) = Break (inet_pton ip).
Proof. intros Hp. apply (lookup_entry_entry node pattern ip Hp). Qed.

Lemma lookup_entry_no_match node pattern ip :
  ~ In "="%char pattern -> ~ pattern_matches pattern node ->
  lookup_entry inet_pton node (entry pattern ip) = Continue.
Proof. intros Hp. apply (lookup_entry_entry node pattern ip Hp). Qed.

(** The loop passes over a token exactly when the token is no matching
    entry. *)
Lemma lookup_entry_continue node t :
  lookup_entry inet_pton node t = Continue <-> ~ entry_matches t node.
Proof.
  destruct (strchr t "="%char) as [i|] eqn:E.
  - destruct (strchr_some _ _ _ E) as [Ht Hp].
    set (pattern := firstn i t) in *. set (ip := skipn (S i) t) in *.
    change (t = entry pattern ip) in Ht. rewrite Ht.
    destruct (lookup_entry_entry node pattern ip Hp) as [Hyes Hno].
    split.
    + intros Hc [pattern' [ip' [Eq [Hp' Hm]]]].
      assert (pattern' = pattern /\ ip' = ip) as [-> ->].
      { symmetry in Eq. now apply entry_inj in Eq. }
      rewrite (Hyes Hm) in Hc. discriminate.
    + intros Hn. apply Hno. intros Hm. apply Hn.
      now exists pattern, ip.
  - split; intros H.
    + intros [pattern [ip [Eq [Hp _]]]]. subst t.
      unfold entry in E. now rewrite strchr_first in E.
    + unfold lookup_entry. now rewrite E.
Qed.

End Loop.

(** ** Dotted-decimal text of an address *)

Lemma dec_octet_length n : (1 <= length (dec_octet n) <= 3)%nat.
Proof.
  unfold dec_octet.
  destruct (n <? 10)%N; [cbn; lia|].
  destruct (n <? 100)%N; cbn; lia.
Qed.

(** The text of an address fits the [ip_str] buffer with its NUL. *)
Lemma inet_ntop_length a : (length (inet_ntop a) < INET_ADDRSTRLEN)%nat.
Proof.
  unfold inet_ntop, INET_ADDRSTRLEN. rewrite !length_app.
  pose proof (dec_octet_length (Byte.to_N (octet0 a))).
  pose proof (dec_octet_length (Byte.to_N (octet1 a))).
  pose proof (dec_octet_length (Byte.to_N (octet2 a))).
  pose proof (dec_octet_length (Byte.to_N (octet3 a))).
  cbn [cs list_ascii_of_string length]. lia.
Qed.

Lemma inet_pton4_octet b rest done k :
  (k < 4)%nat ->
  inet_pton4_loop (dec_octet (Byte.to_N b) ++ rest) done 0 false k
  = inet_pton4_loop rest done (Byte.to_N b) true (S k).
Proof.
  intros Hk.
  destruct k as [|[|[|[|k]]]]; [| | | |lia]; destruct b; reflexivity.
Qed.

Lemma inet_pton4_dot rest done cur k :
  (k < 4)%nat ->
  inet_pton4_loop (cs "." ++ rest) done cur true k
  = inet_pton4_loop rest (done ++ [cur]) 0 false k.
Proof.
  intros Hk. destruct k as [|[|[|[|k]]]]; [| | | |lia]; reflexivity.
Qed.

(** What the model of [inet_pton] accepts: four decimal octets of one to
    three digits, at most 255, without leading zeros, separated by dots. *)
Example inet_pton4_samples :
  inet_pton4 (cs "203.0.113.9") = Some (mk_in_addr "203" "000" "113" "009") /\
  inet_pton4 (cs "255.255.255.255")
  = Some (mk_in_addr "255" "255" "255" "255") /\
  inet_pton4 (cs "not-an-ip") = None /\
  inet_pton4 (cs "") = None /\
  inet_pton4 (cs "1.2.3") = None /\
  inet_pton4 (cs "1.2.3.4.5") = None /\
  inet_pton4 (cs "1.2.3.4.") = None /\
  inet_pton4 (cs "1.2..4") = None /\
  inet_pton4 (cs "256.1.1.1") = None /\
  inet_pton4 (cs "01.1.1.1") = None /\
  inet_pton4 (cs " 1.1.1.1") = None.
Proof. repeat split. Qed.

(** [inet_pton] reads back what [inet_ntop] writes. *)
Lemma inet_pton4_ntop a : inet_pton4 (inet_ntop a) = Some a.
Proof.
  destruct a as [a b c d]. unfold inet_pton4, inet_ntop.
  cbn [octet0 octet1 octet2 octet3].
  rewrite inet_pton4_octet, inet_pton4_dot by lia.
  rewrite inet_pton4_octet, inet_pton4_dot by lia.
  rewrite inet_pton4_octet, inet_pton4_dot by lia.
  pose proof (inet_pton4_octet d [] ([] ++ [Byte.to_N a] ++ [Byte.to_N b]
                                       ++ [Byte.to_N c]) 3) as E.
  rewrite app_nil_r in E. cbn [app] in *. rewrite E by lia.
  cbn [inet_pton4_loop Nat.ltb Nat.leb app map].
  now rewrite !Byte.of_to_N.
Qed.

(** ** The override lookup on a configuration *)

Lemma getenv_env_of cfg : getenv (env_of cfg) CURSOR_DNS_OVERRIDES = Some cfg.
Proof. reflexivity. Qed.

Lemma comma_free_entry pattern ip :
  comma_free pattern -> comma_free ip -> comma_free (entry pattern ip).
Proof.
  unfold comma_free, entry. intros Hp Hi Hin.
  apply in_app_or in Hin. destruct Hin as [H|[H|H]]; [tauto | discriminate | tauto].
Qed.

Section Lookup.

Variable inet_pton : cstring -> option in_addr.

Lemma lookup_env_of node entries :
  Forall comma_free entries ->
  lookup_override inet_pton (env_of (join entries)) true (Some node)
  = scan inet_pton node entries.
Proof. apply lookup_override_scan, getenv_env_of. Qed.

(** The scan passes over every entry that does not match and reaches the
    first one that could. *)
Lemma lookup_reaches e node pre t post :
  Forall comma_free pre -> comma_free t -> Forall comma_free post ->
  Forall (fun u => ~ entry_matches u node) pre ->
  getenv e CURSOR_DNS_OVERRIDES = Some (join (pre ++ t :: post)) ->
  lookup_override inet_pton e true (Some node)
  = scan inet_pton node (t :: post).
Proof.
  intros Hpre Ht Hpost Hno He.
  rewrite (lookup_override_scan inet_pton e node _ He).
  - apply scan_app_continue.
    eapply Forall_impl; [|exact Hno].
    intros u Hu. now apply lookup_entry_continue.
  - apply Forall_app. split; [assumption|]. now constructor.
Qed.

(** The scan stops at the first entry whose pattern matches, and reports
    what [inet_pton] makes of its address. *)
Lemma lookup_first_match e node pre pattern ip post :
  Forall comma_free pre -> Forall comma_free post ->
  is_pattern pattern -> comma_free ip ->
  Forall (fun u => ~ entry_matches u node) pre ->
  pattern_matches pattern node ->
  getenv e CURSOR_DNS_OVERRIDES
  = Some (join (pre ++ entry pattern ip :: post)) ->
  lookup_override inet_pton e true (Some node) = inet_pton ip.
Proof.
  intros Hpre Hpost [Heq Hcomma] Hip Hno Hm He.
  rewrite (lookup_reaches e node pre _ post Hpre
             (comma_free_entry _ _ Hcomma Hip) Hpost Hno He).
  cbn [scan]. now rewrite lookup_entry_match.
Qed.

(** An entry that does not match is passed over. *)
Lemma lookup_passes e node pre t post :
  Forall comma_free pre -> comma_free t -> Forall comma_free post ->
  Forall (fun u => ~ entry_matches u node) pre ->
  ~ entry_matches t node ->
  getenv e CURSOR_DNS_OVERRIDES = Some (join (pre ++ t :: post)) ->
  lookup_override inet_pton e true (Some node)
  = lookup_override inet_pton (env_of (join post)) true (Some node).
Proof.
  intros Hpre Ht Hpost Hno Hn He.
  rewrite (lookup_reaches e node pre t post Hpre Ht Hpost Hno He).
  rewrite (lookup_env_of node post Hpost). cbn [scan].
  now rewrite (proj2 (lookup_entry_continue inet_pton node t) Hn).
Qed.

Lemma lookup_absent e heap_ok node :
  getenv e CURSOR_DNS_OVERRIDES = None \/ node = None \/ heap_ok = false ->
  lookup_override inet_pton e heap_ok node = None.
Proof.
  unfold lookup_override.
  change (cs "CURSOR_DNS_OVERRIDES") with CURSOR_DNS_OVERRIDES.
  intros [H|[H|H]]; rewrite H.
  - reflexivity.
  - now destruct (getenv e CURSOR_DNS_OVERRIDES).
  - destruct (getenv e CURSOR_DNS_OVERRIDES), node; reflexivity.
Qed.

End Lookup.

(** ** The interceptor *)

Section Interceptor.

Variable inet_pton : cstring -> option in_addr.
Variables (res_ptr R : Type).
Variable dlsym_next : cstring -> option (resolver res_ptr R).

(** Sequentially the lazy binding settles: once bound, the static pointer
    keeps its value, and binding again changes nothing. *)
Lemma bind_real_idempotent cell :
  bind_real dlsym_next (bind_real dlsym_next cell) = bind_real dlsym_next cell.
Proof.
  unfold bind_real. destruct cell as [f|]; [reflexivity|].
  destruct (dlsym_next (cs "getaddrinfo")); reflexivity.
Qed.

Lemma getaddrinfo_cell cell e heap_ok node service hints res :
  fst (getaddrinfo inet_pton dlsym_next cell e heap_ok node service hints res)
  = bind_real dlsym_next cell.
Proof.
  unfold getaddrinfo.
  now destruct (match node with
                | Some _ => lookup_override inet_pton e heap_ok node
                | None => None
                end).
Qed.

Lemma getaddrinfo_override cell real e heap_ok n service hints res a :
  bind_real dlsym_next cell = Some real ->
  lookup_override inet_pton e heap_ok (Some n) = Some a ->
  getaddrinfo inet_pton dlsym_next cell e heap_ok (Some n) service hints res
  = (Some real,
     Some (real (Some (inet_ntop a)) service
             (Some {| ai_flags := AI_NUMERICHOST;
                      ai_family := AF_INET;
                      ai_socktype :=
                        match hints with
                        | Some h => ai_socktype h
                        | None => SOCK_STREAM
                        end;
                      ai_protocol :=
                        match hints with
                        | Some h => ai_protocol h
                        | None => 0
                        end;
                      ai_addrlen := 0; ai_addr := 0;
                      ai_canonname := 0; ai_next := 0 |}) res)).
Proof.
  intros Hb Hl. unfold getaddrinfo. now rewrite Hb, Hl.
Qed.

Lemma getaddrinfo_fallback cell real e heap_ok node service hints res :
  bind_real dlsym_next cell = Some real ->
  lookup_override inet_pton e heap_ok node = None ->
  getaddrinfo inet_pton dlsym_next cell e heap_ok node service hints res
  = (Some real,
     Some (real node service
             (Some (with_family AF_INET
                      match hints with
                      | Some h => h
                      | None => addrinfo_zero
                      end)) res)).
Proof.
  intros Hb Hl. unfold getaddrinfo. rewrite Hb.
  destruct node; [rewrite Hl|]; reflexivity.
Qed.

End Interceptor.

Lemma scan_skip inet_pton node pre t post :
  lookup_entry inet_pton node t = Continue ->
  scan inet_pton node (pre ++ t :: post) = scan inet_pton node (pre ++ post).
Proof.
  intros Ht. induction pre as [|u pre IH]; cbn [app scan].
  - now rewrite Ht.
  - now rewrite IH.
Qed.

Lemma is_pattern_wildcard suffix :
  is_pattern suffix -> is_pattern (cs "*." ++ suffix).
Proof.
  intros [H1 H2]. unfold comma_free in *. split; intros H; cbn in H;
    destruct H as [H|[H|H]]; try discriminate; tauto.
Qed.

(** ** Closed instances: tactics for concrete strings *)

Ltac not_in :=
  let H := fresh "H" in
  intros H; cbn in H;
  repeat (destruct H as [H|H]; [discriminate H|]); exact H.

Ltac all_comma_free := repeat constructor; not_in.

Ltac no_entry_matches :=
  repeat (constructor;
          [apply (lookup_entry_continue inet_pton4); vm_compute; reflexivity|]);
  try constructor.

(** ** The override lookup: wildcard patterns, order, unparsable addresses *)

(** C1. For a host name [node] and a configured wildcard entry
    [*.suffix=ip] that no earlier entry keeps the scan from reaching, the
    loop stops at that entry if and only if [node] is at least as long as
    [.suffix] and the trailing bytes of [node] are [.suffix], compared byte
    for byte.  When they are, the lookup reports the entry's address; when
    they are not, the lookup goes on with the entries after it.  The bare
    [example.com] is not matched by [*.example.com], [foo.example.com] is,
    and [foo.EXAMPLE.com] is not. *)
Theorem wildcard_suffix_match inet_pton e node pre suffix ip post :
  Forall comma_free pre -> Forall comma_free post ->
  is_pattern suffix -> comma_free ip ->
  Forall (fun u => ~ entry_matches u node) pre ->
  getenv e CURSOR_DNS_OVERRIDES
  = Some (join (pre ++ entry (cs "*." ++ suffix) ip :: post)) ->
  (lookup_entry inet_pton node (entry (cs "*." ++ suffix) ip)
   = Break (inet_pton ip)
   <-> ends_with node ("."%char :: suffix)) /\
  (ends_with node ("."%char :: suffix) ->
   lookup_override inet_pton e true (Some node) = inet_pton ip) /\
  (~ ends_with node ("."%char :: suffix) ->
   lookup_override inet_pton e true (Some node)
   = lookup_override inet_pton (env_of (join post)) true (Some node)) /\
  lookup_override inet_pton4 (env_of (cs "*.example.com=192.0.2.1")) true
    (Some (cs "example.com")) = None /\
  lookup_override inet_pton4 (env_of (cs "*.example.com=192.0.2.1")) true
    (Some (cs "foo.example.com")) = Some (mk_in_addr "192" "000" "002" "001") /\
  lookup_override inet_pton4 (env_of (cs "*.example.com=192.0.2.1")) true
    (Some (cs "foo.EXAMPLE.com")) = None.
Proof.
  intros Hpre Hpost Hsuf Hip Hno He.
  pose proof (is_pattern_wildcard suffix Hsuf) as Hpat.
  destruct (lookup_entry_entry inet_pton node (cs "*." ++ suffix) ip
              (proj1 Hpat)) as [Hyes Hnot].
  split; [split|split; [|split; [|split; [|split]]]].
  - intros Hb.
    destruct (ends_withb node ("."%char :: suffix)) eqn:E.
    + now apply ends_withb_spec.
    + exfalso. rewrite Hnot in Hb; [discriminate|].
      intros Hm. apply wildcard_matches, ends_withb_spec in Hm. congruence.
  - intros Hw. apply Hyes. now apply wildcard_matches.
  - intros Hw.
    apply (lookup_first_match inet_pton e node pre (cs "*." ++ suffix) ip post);
      try assumption.
    now apply wildcard_matches.
  - intros Hw.
    apply (lookup_passes inet_pton e node pre
             (entry (cs "*." ++ suffix) ip) post); try assumption.
    + apply comma_free_entry; [apply Hpat | assumption].
    + apply lookup_entry_continue with (inet_pton := inet_pton).
      apply Hnot. intros Hm. apply Hw. now apply wildcard_matches.
  - vm_compute. reflexivity.
  - vm_compute. reflexivity.
  - vm_compute. reflexivity.
Qed.

Lemma wildcard_suffix_match_witness :
  lookup_override inet_pton4
    (env_of (cs "api.internal.example=10.0.0.5,junk,*.blocked.example=127.0.0.1"))
    true (Some (cs "x.y.blocked.example"))
  = inet_pton4 (cs "127.0.0.1").
Proof.
  assert (Hw : ends_with (cs "x.y.blocked.example") (cs ".blocked.example"))
    by (apply ends_withb_spec; reflexivity).
  refine (proj1 (proj2 (wildcard_suffix_match inet_pton4
            (env_of (cs "api.internal.example=10.0.0.5,junk,*.blocked.example=127.0.0.1"))
            (cs "x.y.blocked.example")
            [cs "api.internal.example=10.0.0.5"; cs "junk"]
            (cs "blocked.example") (cs "127.0.0.1") []
            _ _ _ _ _ _)) Hw).
  - all_comma_free.
  - constructor.
  - split; not_in.
  - not_in.
  - no_entry_matches.
  - reflexivity.
Defined.

(** C2. First match wins, left to right: when an entry [node=ip] whose
    pattern is the host name itself comes before any other matching entry,
    the lookup reports [ip] as [inet_pton] parses it (and nothing when it
    does not parse), whatever follows.  For [a=1.1.1.1,a=2.2.2.2] the
    lookup of [a] gives 1.1.1.1. *)
Theorem first_match_wins inet_pton e node pre ip post :
  Forall comma_free pre -> Forall comma_free post ->
  is_pattern node -> comma_free ip ->
  Forall (fun u => ~ entry_matches u node) pre ->
  getenv e CURSOR_DNS_OVERRIDES = Some (join (pre ++ entry node ip :: post)) ->
  lookup_override inet_pton e true (Some node) = inet_pton ip /\
  lookup_override inet_pton4 (env_of (cs "a=1.1.1.1,a=2.2.2.2")) true
    (Some (cs "a")) = Some (mk_in_addr "001" "001" "001" "001").
Proof.
  intros Hpre Hpost Hnode Hip Hno He. split.
  - apply (lookup_first_match inet_pton e node pre node ip post);
      try assumption.
    now left.
  - vm_compute. reflexivity.
Qed.

Lemma first_match_wins_witness :
  lookup_override inet_pton4
    (env_of (cs "b=9.9.9.9,*.a=8.8.8.8,a=1.1.1.1,a=2.2.2.2")) true
    (Some (cs "a"))
  = inet_pton4 (cs "1.1.1.1").
Proof.
  refine (proj1 (first_match_wins inet_pton4
            (env_of (cs "b=9.9.9.9,*.a=8.8.8.8,a=1.1.1.1,a=2.2.2.2"))
            (cs "a") [cs "b=9.9.9.9"; cs "*.a=8.8.8.8"] (cs "1.1.1.1")
            [cs "a=2.2.2.2"] _ _ _ _ _ _)).
  - all_comma_free.
  - all_comma_free.
  - split; not_in.
  - not_in.
  - no_entry_matches.
  - reflexivity.
Defined.

(** C3. The scan stops at the first entry whose pattern matches the host
    name whether or not its address parses: when [inet_pton] rejects the
    address of that entry the lookup reports no override, whatever entries
    follow.  For [a=not-an-ip,a=3.3.3.3] the lookup of [a] reports none,
    although [a=3.3.3.3] alone gives 3.3.3.3. *)
Theorem stops_at_unparsable_match inet_pton e node pre pattern ip post :
  Forall comma_free pre -> Forall comma_free post ->
  is_pattern pattern -> comma_free ip ->
  Forall (fun u => ~ entry_matches u node) pre ->
  pattern_matches pattern node ->
  inet_pton ip = None ->
  getenv e CURSOR_DNS_OVERRIDES
  = Some (join (pre ++ entry pattern ip :: post)) ->
  lookup_override inet_pton e true (Some node) = None /\
  lookup_override inet_pton4 (env_of (cs "a=not-an-ip,a=3.3.3.3")) true
    (Some (cs "a")) = None /\
  lookup_override inet_pton4 (env_of (cs "a=3.3.3.3")) true
    (Some (cs "a")) = Some (mk_in_addr "003" "003" "003" "003").
Proof.
  intros Hpre Hpost Hpat Hip Hno Hm Hbad He. split; [|split].
  - rewrite <- Hbad.
    now apply (lookup_first_match inet_pton e node pre pattern ip post).
  - vm_compute. reflexivity.
  - vm_compute. reflexivity.
Qed.

Lemma stops_at_unparsable_match_witness :
  lookup_override inet_pton4
    (env_of (cs "b=1.2.3.4,*.test=1.2.3,foo.test=3.3.3.3")) true
    (Some (cs "foo.test"))
  = None.
Proof.
  refine (proj1 (stops_at_unparsable_match inet_pton4
            (env_of (cs "b=1.2.3.4,*.test=1.2.3,foo.test=3.3.3.3"))
            (cs "foo.test") [cs "b=1.2.3.4"] (cs "*.test") (cs "1.2.3")
            [cs "foo.test=3.3.3.3"] _ _ _ _ _ _ _ _)).
  - all_comma_free.
  - all_comma_free.
  - split; not_in.
  - not_in.
  - no_entry_matches.
  - right. exists (cs "test"). split; [reflexivity|].
    apply ends_withb_spec. reflexivity.
  - reflexivity.
  - reflexivity.
Defined.

(** ** The override lookup: absent and malformed input *)

(** C6. The lookup has no error outcome: it is a total function whose
    result is an address or none.  A token without [=] is passed over and
    the scan goes on with the entries after it, so the result is the one of
    the configuration without that token; and without the configuration
    variable, without a host name, or with an empty configuration string
    the result is none. *)
Theorem lookup_never_errors inet_pton e node pre t post :
  Forall comma_free pre -> comma_free t -> Forall comma_free post ->
  ~ In "="%char t ->
  getenv e CURSOR_DNS_OVERRIDES = Some (join (pre ++ t :: post)) ->
  lookup_override inet_pton e true (Some node)
  = lookup_override inet_pton (env_of (join (pre ++ post))) true (Some node)
  /\
  (forall e' heap_ok node',
      getenv e' CURSOR_DNS_OVERRIDES = None \/ node' = None \/
      getenv e' CURSOR_DNS_OVERRIDES = Some [] ->
      lookup_override inet_pton e' heap_ok node' = None).
Proof.
  intros Hpre Ht Hpost Hneq He. split.
  - rewrite (lookup_override_scan inet_pton e node _ He)
      by (apply Forall_app; split; [assumption | now constructor]).
    rewrite lookup_env_of by (apply Forall_app; now split).
    apply scan_skip. now apply lookup_entry_no_eq.
  - intros e' heap_ok node' [H|[H|H]].
    + apply lookup_absent. now left.
    + apply lookup_absent. right. now left.
    + destruct heap_ok; [|apply lookup_absent; now right; right].
      destruct node' as [n|]; [|apply lookup_absent; right; now left].
      rewrite (lookup_override_run inet_pton e' n [] H). apply run_nil.
Qed.

Lemma lookup_never_errors_witness :
  lookup_override inet_pton4
    (env_of (cs "b=9.9.9.9,no-equals-sign,,a=1.1.1.1")) true (Some (cs "a"))
  = lookup_override inet_pton4
      (env_of (cs "b=9.9.9.9,,a=1.1.1.1")) true (Some (cs "a")).
Proof.
  refine (proj1 (lookup_never_errors inet_pton4
            (env_of (cs "b=9.9.9.9,no-equals-sign,,a=1.1.1.1")) (cs "a")
            [cs "b=9.9.9.9"] (cs "no-equals-sign") [[]; cs "a=1.1.1.1"]
            _ _ _ _ _)).
  - all_comma_free.
  - not_in.
  - all_comma_free.
  - not_in.
  - reflexivity.
Defined.

(** C10. When [strdup] cannot allocate the working copy, the lookup
    reports no match, and [getaddrinfo] takes the fallback path: the real
    resolver is called with the original host name and service and the
    hints with the family forced to IPv4. *)
Theorem strdup_failure_falls_through inet_pton (res_ptr R : Type)
    (dlsym_next : cstring -> option (resolver res_ptr R))
    cell real e node service hints res :
  bind_real dlsym_next cell = Some real ->
  lookup_override inet_pton e false node = None /\
  getaddrinfo inet_pton dlsym_next cell e false node service hints res
  = (Some real,
     Some (real node service
             (Some (with_family AF_INET
                      match hints with
                      | Some h => h
                      | None => addrinfo_zero
                      end)) res)).
Proof.
  intros Hb.
  assert (Hl : lookup_override inet_pton e false node = None)
    by (apply lookup_absent; now right; right).
  split; [exact Hl|].
  now apply getaddrinfo_fallback.
Qed.

Lemma strdup_failure_falls_through_witness :
  getaddrinfo inet_pton4 dlsym_echo None
    (env_of (cs "foo.test=203.0.113.9")) false
    (Some (cs "foo.test")) (Some (cs "443")) None tt
  = (Some echo,
     Some (Some (cs "foo.test"), Some (cs "443"),
           Some (with_family AF_INET addrinfo_zero))).
Proof.
  refine (proj2 (strdup_failure_falls_through inet_pton4 unit request
            dlsym_echo None echo (env_of (cs "foo.test=203.0.113.9"))
            (Some (cs "foo.test")) (Some (cs "443")) None tt _)).
  reflexivity.
Defined.

(** ** The interceptor: what the real resolver is asked *)

(** C4. When the lookup finds an override [a], [getaddrinfo] calls the real
    resolver with the dotted-decimal text of [a] as host name, the caller's
    service, and hints whose flags are [AI_NUMERICHOST], whose family is
    [AF_INET], and whose socket type and protocol are the caller's when
    hints were given and [SOCK_STREAM] and 0 when not; it returns what the
    real resolver returns.  The text fits the [ip_str] buffer and is read
    back by [inet_pton] as [a]. *)
Theorem override_request_built inet_pton (res_ptr R : Type)
    (dlsym_next : cstring -> option (resolver res_ptr R))
    cell real e heap_ok n service hints res a :
  bind_real dlsym_next cell = Some real ->
  lookup_override inet_pton e heap_ok (Some n) = Some a ->
  getaddrinfo inet_pton dlsym_next cell e heap_ok (Some n) service hints res
  = (Some real,
     Some (real (Some (inet_ntop a)) service
             (Some {| ai_flags := AI_NUMERICHOST;
                      ai_family := AF_INET;
                      ai_socktype :=
                        match hints with
                        | Some h => ai_socktype h
                        | None => SOCK_STREAM
                        end;
                      ai_protocol :=
                        match hints with
                        | Some h => ai_protocol h
                        | None => 0
                        end;
                      ai_addrlen := 0; ai_addr := 0;
                      ai_canonname := 0; ai_next := 0 |}) res))
  /\ (length (inet_ntop a) < INET_ADDRSTRLEN)%nat
  /\ inet_pton4 (inet_ntop a) = Some a.
Proof.
  intros Hb Hl. split; [|split].
  - now apply getaddrinfo_override.
  - apply inet_ntop_length.
  - apply inet_pton4_ntop.
Qed.

Lemma override_request_built_witness :
  getaddrinfo inet_pton4 dlsym_echo None
    (env_of (cs "foo.test=203.0.113.9")) true
    (Some (cs "foo.test")) (Some (cs "https"))
    (Some (mk_addrinfo AI_CANONNAME AF_INET6 SOCK_DGRAM 17 0 0 0 0)) tt
  = (Some echo,
     Some (Some (cs "203.0.113.9"), Some (cs "https"),
           Some (mk_addrinfo AI_NUMERICHOST AF_INET SOCK_DGRAM 17 0 0 0 0))).
Proof.
  refine (proj1 (override_request_built inet_pton4 unit request dlsym_echo
            None echo (env_of (cs "foo.test=203.0.113.9")) true
            (cs "foo.test") (Some (cs "https"))
            (Some (mk_addrinfo AI_CANONNAME AF_INET6 SOCK_DGRAM 17 0 0 0 0))
            tt (mk_in_addr "203" "000" "113" "009") _ _)).
  - reflexivity.
  - vm_compute. reflexivity.
Defined.

(** C5. When the lookup finds no override, which includes the call without
    a host name, [getaddrinfo] calls the real resolver with the original
    host name and service and a copy of the caller's hints (all zero when
    none were given) in which the family is [AF_INET], whatever family was
    asked for, and every other field is as the caller set it; it returns
    what the real resolver returns. *)
Theorem fallback_forces_ipv4 inet_pton (res_ptr R : Type)
    (dlsym_next : cstring -> option (resolver res_ptr R))
    cell real e heap_ok node service hints res :
  bind_real dlsym_next cell = Some real ->
  lookup_override inet_pton e heap_ok node = None ->
  let h := match hints with Some h => h | None => addrinfo_zero end in
  getaddrinfo inet_pton dlsym_next cell e heap_ok node service hints res
  = (Some real, Some (real node service (Some (with_family AF_INET h)) res))
  /\ getaddrinfo inet_pton dlsym_next cell e heap_ok None service hints res
     = (Some real, Some (real None service (Some (with_family AF_INET h)) res))
  /\ ai_family (with_family AF_INET h) = AF_INET
  /\ ai_flags (with_family AF_INET h) = ai_flags h
  /\ ai_socktype (with_family AF_INET h) = ai_socktype h
  /\ ai_protocol (with_family AF_INET h) = ai_protocol h
  /\ ai_addrlen (with_family AF_INET h) = ai_addrlen h
  /\ ai_addr (with_family AF_INET h) = ai_addr h
  /\ ai_canonname (with_family AF_INET h) = ai_canonname h
  /\ ai_next (with_family AF_INET h) = ai_next h.
Proof.
  intros Hb Hl h. split; [|split].
  - now apply getaddrinfo_fallback.
  - apply getaddrinfo_fallback; [assumption|].
    apply lookup_absent. right. now left.
  - repeat split.
Qed.

Lemma fallback_forces_ipv4_witness :
  getaddrinfo inet_pton4 dlsym_echo None
    (env_of (cs "other.test=10.0.0.1")) true
    (Some (cs "example.org")) None
    (Some (mk_addrinfo AI_CANONNAME AF_INET6 SOCK_DGRAM 17 0 0 0 0)) tt
  = (Some echo,
     Some (Some (cs "example.org"), None,
           Some (mk_addrinfo AI_CANONNAME AF_INET SOCK_DGRAM 17 0 0 0 0))).
Proof.
  refine (proj1 (fallback_forces_ipv4 inet_pton4 unit request dlsym_echo
            None echo (env_of (cs "other.test=10.0.0.1")) true
            (Some (cs "example.org")) None
            (Some (mk_addrinfo AI_CANONNAME AF_INET6 SOCK_DGRAM 17 0 0 0 0))
            tt _ _)).
  - reflexivity.
  - vm_compute. reflexivity.
Defined.

(** C9. On the override path the caller's hint flags are dropped: the
    hints handed to the real resolver carry [AI_NUMERICHOST] and nothing
    else, so two calls whose hints differ only in their flags make the same
    call of the real resolver. *)
Theorem override_discards_flags inet_pton (res_ptr R : Type)
    (dlsym_next : cstring -> option (resolver res_ptr R))
    cell real e heap_ok n service h flags' res a :
  bind_real dlsym_next cell = Some real ->
  lookup_override inet_pton e heap_ok (Some n) = Some a ->
  (exists req,
      getaddrinfo inet_pton dlsym_next cell e heap_ok (Some n) service
        (Some h) res
      = (Some real, Some (real (Some (inet_ntop a)) service (Some req) res))
      /\ ai_flags req = AI_NUMERICHOST)
  /\ getaddrinfo inet_pton dlsym_next cell e heap_ok (Some n) service
       (Some h) res
     = getaddrinfo inet_pton dlsym_next cell e heap_ok (Some n) service
         (Some {| ai_flags := flags';
                  ai_family := ai_family h;
                  ai_socktype := ai_socktype h;
                  ai_protocol := ai_protocol h;
                  ai_addrlen := ai_addrlen h;
                  ai_addr := ai_addr h;
                  ai_canonname := ai_canonname h;
                  ai_next := ai_next h |}) res.
Proof.
  intros Hb Hl. split.
  - eexists. split.
    + now apply getaddrinfo_override.
    + reflexivity.
  - now rewrite !(getaddrinfo_override inet_pton res_ptr R dlsym_next
                    cell real e heap_ok n service _ res a Hb Hl).
Qed.

Lemma override_discards_flags_witness :
  getaddrinfo inet_pton4 dlsym_echo None
    (env_of (cs "*.blocked.test=127.0.0.1")) true
    (Some (cs "x.y.blocked.test")) None
    (Some (mk_addrinfo (Z.lor AI_CANONNAME AI_PASSIVE) AF_UNSPEC
             SOCK_STREAM 6 0 0 0 0)) tt
  = getaddrinfo inet_pton4 dlsym_echo None
      (env_of (cs "*.blocked.test=127.0.0.1")) true
      (Some (cs "x.y.blocked.test")) None
      (Some (mk_addrinfo 0 AF_UNSPEC SOCK_STREAM 6 0 0 0 0)) tt.
Proof.
  refine (proj2 (override_discards_flags inet_pton4 unit request dlsym_echo
            None echo (env_of (cs "*.blocked.test=127.0.0.1")) true
            (cs "x.y.blocked.test") None
            (mk_addrinfo (Z.lor AI_CANONNAME AI_PASSIVE) AF_UNSPEC
               SOCK_STREAM 6 0 0 0 0)
            0 tt (mk_in_addr "127" "000" "000" "001") _ _)).
  - reflexivity.
  - vm_compute. reflexivity.
Defined.

(** ** Every configuration string is a list of entries *)

Lemma split_commas_cons s : exists t rest, split_commas s = t :: rest.
Proof.
  destruct s as [|c s]; cbn [split_commas]; [eauto|].
  destruct (Ascii.eqb c ","%char); [eauto|].
  destruct (split_commas s); eauto.
Qed.

Lemma join_cons_nil (t : cstring) rest :
  join ([] :: t :: rest) = ","%char :: join (t :: rest).
Proof. reflexivity. Qed.

Lemma join_cons_char c t rest : join ((c :: t) :: rest) = c :: join (t :: rest).
Proof. destruct rest; reflexivity. Qed.

Lemma join_split_commas s : join (split_commas s) = s.
Proof.
  induction s as [|c s IH]; [reflexivity|].
  cbn [split_commas].
  destruct (split_commas_cons s) as [t [rest E]]. rewrite E in *.
  cbv iota.
  destruct (Ascii.eqb_spec c ","%char) as [->|Hne].
  - rewrite (join_cons_nil t rest). f_equal. exact IH.
  - rewrite join_cons_char. f_equal. exact IH.
Qed.

Lemma split_commas_comma_free s : Forall comma_free (split_commas s).
Proof.
  induction s as [|c s IH]; cbn [split_commas].
  - constructor; [|constructor]. intros [].
  - destruct (Ascii.eqb_spec c ","%char) as [->|Hne].
    + constructor; [intros []|exact IH].
    + destruct (split_commas s) as [|t rest].
      * constructor; [|constructor]. intros [H|[]]. congruence.
      * inversion IH as [|? ? Ht Hrest]; subst. constructor; [|exact Hrest].
        intros [H|H]; [congruence | now apply Ht].
Qed.

Lemma split_commas_app s1 s2 :
  split_commas (s1 ++ ","%char :: s2) = split_commas s1 ++ split_commas s2.
Proof.
  induction s1 as [|c s1 IH]; [reflexivity|].
  cbn [app split_commas]. rewrite IH.
  destruct (Ascii.eqb c ","%char); [reflexivity|].
  destruct (split_commas_cons s1) as [t [rest E]]. now rewrite E.
Qed.

Lemma run_split_commas inet_pton node s :
  run inet_pton node s = scan inet_pton node (split_commas s).
Proof.
  rewrite <- (join_split_commas s) at 1.
  apply run_join, split_commas_comma_free.
Qed.

Lemma comma_free_entry_inv pattern ip :
  comma_free (entry pattern ip) -> comma_free pattern /\ comma_free ip.
Proof.
  unfold comma_free, entry. intros H. split; intros Hin; apply H;
    apply in_or_app; [now left | right; now right].
Qed.

Lemma pattern_matches_dec pattern h :
  pattern_matches pattern h \/ ~ pattern_matches pattern h.
Proof.
  destruct (list_eq_dec ascii_dec pattern h) as [->|Hne]; [left; now left|].
  destruct (Ascii.eqb (nth 0 pattern NUL) "*"%char
            && Ascii.eqb (nth 1 pattern NUL) "."%char) eqn:Ew.
  - apply wildcard_test in Ew. destruct Ew as [suffix ->].
    destruct (ends_withb h ("."%char :: suffix)) eqn:E.
    + left. apply wildcard_matches. now apply ends_withb_spec.
    + right. intros Hm. apply wildcard_matches, ends_withb_spec in Hm.
      congruence.
  - right. intros [H|[suffix [E _]]]; [tauto|].
    assert (Hw : Ascii.eqb (nth 0 pattern NUL) "*"%char
                 && Ascii.eqb (nth 1 pattern NUL) "."%char = true)
      by (apply wildcard_test; now exists suffix).
    congruence.
Qed.

(** When the loop body leaves the loop, the token is an entry whose pattern
    matches, and [found] is what [inet_pton] makes of its address. *)
Lemma lookup_entry_break inet_pton node t found :
  lookup_entry inet_pton node t = Break found ->
  exists pattern ip,
    t = entry pattern ip /\ ~ In "="%char pattern /\
    pattern_matches pattern node /\ found = inet_pton ip.
Proof.
  intros Hb. destruct (strchr t "="%char) as [i|] eqn:E.
  - destruct (strchr_some _ _ _ E) as [Ht Hp].
    exists (firstn i t), (skipn (S i) t).
    change (t = entry (firstn i t) (skipn (S i) t)) in Ht.
    split; [exact Ht|]. split; [exact Hp|].
    rewrite Ht in Hb.
    destruct (pattern_matches_dec (firstn i t) node) as [Hm|Hm].
    + split; [exact Hm|].
      rewrite (lookup_entry_match inet_pton node _ _ Hp Hm) in Hb.
      now injection Hb.
    + rewrite (lookup_entry_no_match inet_pton node _ _ Hp Hm) in Hb.
      discriminate.
  - unfold lookup_entry in Hb. rewrite E in Hb. discriminate.
Qed.

Lemma scan_some inet_pton node entries a :
  scan inet_pton node entries = Some a ->
  exists pre pattern ip post,
    entries = pre ++ entry pattern ip :: post /\
    ~ In "="%char pattern /\
    Forall (fun u => ~ entry_matches u node) pre /\
    pattern_matches pattern node /\ inet_pton ip = Some a.
Proof.
  induction entries as [|t entries IH]; cbn [scan]; [discriminate|].
  destruct (lookup_entry inet_pton node t) as [|found] eqn:E.
  - intros H. destruct (IH H) as [pre [pattern [ip [post [-> [Hp [Hno [Hm Ha]]]]]]]].
    exists (t :: pre), pattern, ip, post. repeat split; try assumption.
    constructor; [|exact Hno].
    now apply (lookup_entry_continue inet_pton).
  - intros ->.
    destruct (lookup_entry_break _ _ _ _ E) as [pattern [ip [-> [Hp [Hm Ha]]]]].
    exists [], pattern, ip, entries. repeat split; try assumption.
    + constructor.
    + now symmetry.
Qed.

(** ** The lookup on an arbitrary configuration string *)

(** X1. For any configuration string, the lookup returns the address [a]
    exactly when the string is a comma-separated list in which some entry
    [pattern=ip] has a pattern matching the host name, no entry before it
    matches, and [inet_pton] reads [ip] as [a]. *)
Theorem lookup_some_iff inet_pton e cfg node a :
  getenv e CURSOR_DNS_OVERRIDES = Some cfg ->
  (lookup_override inet_pton e true (Some node) = Some a <->
   exists pre pattern ip post,
     cfg = join (pre ++ entry pattern ip :: post) /\
     Forall comma_free pre /\ Forall comma_free post /\
     is_pattern pattern /\ comma_free ip /\
     Forall (fun u => ~ entry_matches u node) pre /\
     pattern_matches pattern node /\ inet_pton ip = Some a).
Proof.
  intros He. split.
  - rewrite (lookup_override_run inet_pton e node cfg He), run_split_commas.
    intros Hs.
    destruct (scan_some _ _ _ _ Hs)
      as [pre [pattern [ip [post [E [Hp [Hno [Hm Ha]]]]]]]].
    pose proof (split_commas_comma_free cfg) as Hcf. rewrite E in Hcf.
    apply Forall_app in Hcf. destruct Hcf as [Hpre Hrest].
    inversion Hrest as [|? ? Hent Hpost]; subst.
    apply comma_free_entry_inv in Hent. destruct Hent as [Hpc Hic].
    exists pre, pattern, ip, post.
    split; [now rewrite <- E, join_split_commas|].
    repeat split; assumption.
  - intros [pre [pattern [ip [post [-> [Hpre [Hpost [Hpat [Hip [Hno [Hm Ha]]]]]]]]]]].
    rewrite <- Ha.
    now apply (lookup_first_match inet_pton e node pre pattern ip post).
Qed.

Lemma lookup_some_iff_witness :
  exists pre pattern ip post,
    cs ",b=2.2.2.2,,*.test=10.0.0.7,foo.test=3.3.3.3"
    = join (pre ++ entry pattern ip :: post) /\
    Forall comma_free pre /\ Forall comma_free post /\
    is_pattern pattern /\ comma_free ip /\
    Forall (fun u => ~ entry_matches u (cs "foo.test")) pre /\
    pattern_matches pattern (cs "foo.test") /\
    inet_pton4 ip = Some (mk_in_addr "010" "000" "000" "007").
Proof.
  apply (proj1 (lookup_some_iff inet_pton4
                  (env_of (cs ",b=2.2.2.2,,*.test=10.0.0.7,foo.test=3.3.3.3"))
                  (cs ",b=2.2.2.2,,*.test=10.0.0.7,foo.test=3.3.3.3")
                  (cs "foo.test") (mk_in_addr "010" "000" "000" "007")
                  eq_refl)).
  vm_compute. reflexivity.
Defined.

(** X2. Empty entries do not count: a doubled comma, a leading comma and a
    trailing comma leave the result of the lookup as it is without them. *)
Theorem empty_entries_ignored inet_pton heap_ok node s1 s2 :
  lookup_override inet_pton (env_of (s1 ++ cs ",," ++ s2)) heap_ok node
  = lookup_override inet_pton (env_of (s1 ++ cs "," ++ s2)) heap_ok node /\
  lookup_override inet_pton (env_of (cs "," ++ s2)) heap_ok node
  = lookup_override inet_pton (env_of s2) heap_ok node /\
  lookup_override inet_pton (env_of (s1 ++ cs ",")) heap_ok node
  = lookup_override inet_pton (env_of s1) heap_ok node.
Proof.
  destruct heap_ok;
    [|rewrite !(lookup_absent inet_pton _ false node) by (now right; right);
      repeat split].
  destruct node as [n|];
    [|rewrite !(lookup_absent inet_pton _ true None) by (right; now left);
      repeat split].
  rewrite !(lookup_override_run inet_pton _ n _ (getenv_env_of _)).
  rewrite !run_split_commas.
  cbn [cs list_ascii_of_string app].
  rewrite !split_commas_app.
  split; [|split].
  - change (split_commas (","%char :: s2)) with ([] :: split_commas s2).
    apply scan_skip, lookup_entry_nil.
  - change (split_commas (","%char :: s2)) with ([] :: split_commas s2).
    apply (scan_skip inet_pton n [] [] (split_commas s2)), lookup_entry_nil.
  - etransitivity;
      [apply (scan_skip inet_pton n (split_commas s1) [] []), lookup_entry_nil|].
    now rewrite app_nil_r.
Qed.

(** ** [inet_pton] accepts only the text [inet_ntop] writes *)

Lemma is_digit_char ch :
  is_digit ch = true ->
  ch = digit (N_of_ascii ch - 48) /\ (N_of_ascii ch - 48 < 10)%N.
Proof.
  unfold is_digit, digit. rewrite andb_true_iff, !N.leb_le. intros [H1 H2].
  split; [|lia].
  replace (48 + (N_of_ascii ch - 48))%N with (N_of_ascii ch) by lia.
  now rewrite ascii_N_embedding.
Qed.

Lemma dec_octet_digit d : (d < 10)%N -> dec_octet d = [digit d].
Proof.
  intros H. unfold dec_octet. now rewrite (proj2 (N.ltb_lt d 10) H).
Qed.

Lemma dec_octet_snoc cur d :
  (0 < cur)%N -> (d < 10)%N -> (cur * 10 + d <= 255)%N ->
  dec_octet (cur * 10 + d) = dec_octet cur ++ [digit d].
Proof.
  intros Hc Hd Hn.
  assert (Hq : ((cur * 10 + d) / 10 = cur)%N)
    by (symmetry; apply (N.div_unique _ 10 cur d); lia).
  assert (Hr : ((cur * 10 + d) mod 10 = d)%N)
    by (symmetry; apply (N.mod_unique _ 10 cur d); lia).
  unfold dec_octet.
  rewrite (proj2 (N.ltb_ge (cur * 10 + d) 10)) by lia.
  destruct (cur <? 10)%N eqn:E10.
  - apply N.ltb_lt in E10.
    rewrite (proj2 (N.ltb_lt (cur * 10 + d) 100)) by lia.
    now rewrite Hq, Hr.
  - apply N.ltb_ge in E10.
    rewrite (proj2 (N.ltb_ge (cur * 10 + d) 100)) by lia.
    rewrite (proj2 (N.ltb_lt cur 100)) by lia.
    assert (Hh : ((cur * 10 + d) / 100 = cur / 10)%N).
    { change 100%N with (10 * 10)%N. rewrite <- N.Div0.div_div. now rewrite Hq. }
    now rewrite Hh, Hq, Hr.
Qed.

Lemma dotted_snoc done cur :
  dotted (done ++ [cur]) = dotted done ++ dec_octet cur ++ cs ".".
Proof.
  unfold dotted. rewrite map_app, concat_app. cbn [map concat].
  now rewrite app_nil_r.
Qed.

Lemma four_octets l a :
  match map Byte.of_N l with
  | [Some a0; Some a1; Some a2; Some a3] => Some (mk_in_addr a0 a1 a2 a3)
  | _ => None
  end = Some a ->
  l = [Byte.to_N (octet0 a); Byte.to_N (octet1 a);
       Byte.to_N (octet2 a); Byte.to_N (octet3 a)].
Proof.
  destruct l as [|x0 [|x1 [|x2 [|x3 [|x4 l]]]]]; cbn [map];
    repeat match goal with
           | |- context [Byte.of_N ?x] =>
               let E := fresh "E" in
               destruct (Byte.of_N x) eqn:E; try discriminate
           end;
    try discriminate.
  intros [= <-]. cbn [octet0 octet1 octet2 octet3].
  repeat match goal with
         | E : Byte.of_N _ = Some _ |- _ => apply Byte.to_of_N in E; rewrite E; clear E
         end.
  reflexivity.
Qed.

(** The text read so far, from the state of the scanning loop. *)
Lemma inet_pton4_loop_text src :
  forall done cur saw_digit octets a,
    (saw_digit = false -> cur = 0%N) ->
    octets = (length done + if saw_digit then 1 else 0)%nat ->
    inet_pton4_loop src done cur saw_digit octets = Some a ->
    dotted done ++ (if saw_digit then dec_octet cur else []) ++ src
    = inet_ntop a.
Proof.
  induction src as [|ch src IH]; intros done cur saw_digit octets a Hz Ho.
  - cbn [inet_pton4_loop].
    destruct (octets <? 4)%nat eqn:E4; [discriminate|].
    apply Nat.ltb_ge in E4.
    intros Hl. apply four_octets in Hl.
    destruct a as [a0 a1 a2 a3]. cbn [octet0 octet1 octet2 octet3] in Hl.
    destruct done as [|d0 [|d1 [|d2 [|d3 done]]]]; cbn [app] in Hl;
      try discriminate Hl; [|destruct done; discriminate Hl].
    injection Hl as -> -> -> ->.
    destruct saw_digit; [|cbn [length] in Ho; lia].
    unfold inet_ntop, dotted. cbn [octet0 octet1 octet2 octet3 map concat].
    rewrite !app_nil_r, <- !app_assoc. reflexivity.
  - cbn [inet_pton4_loop].
    destruct (is_digit ch) eqn:Ed.
    + destruct (is_digit_char ch Ed) as [Hch Hlt].
      set (d := (N_of_ascii ch - 48)%N) in *.
      destruct saw_digit; cbn [andb].
      * destruct (cur =? 0)%N eqn:Ec; [discriminate|].
        apply N.eqb_neq in Ec.
        destruct (255 <? cur * 10 + d)%N eqn:E255; [discriminate|].
        apply N.ltb_ge in E255.
        intros Hl. apply IH in Hl; [|discriminate|exact Ho].
        rewrite <- Hl, dec_octet_snoc by lia.
        rewrite <- !app_assoc. cbn [app]. now rewrite Hch at 1.
      * rewrite (Hz eq_refl). cbn [N.mul N.add].
        destruct (255 <? d)%N; [discriminate|].
        destruct (4 <? S octets)%nat; [discriminate|].
        intros Hl. apply IH in Hl; [|discriminate|lia].
        rewrite <- Hl, dec_octet_digit by exact Hlt.
        cbn [app]. now rewrite Hch at 1.
    + destruct (Ascii.eqb_spec ch "."%char) as [->|Hne]; [|discriminate].
      destruct saw_digit; cbn [andb]; [|discriminate].
      destruct (octets =? 4)%nat; [discriminate|].
      intros Hl. apply IH in Hl; [|reflexivity|rewrite length_app; cbn; lia].
      rewrite <- Hl, dotted_snoc, <- !app_assoc. reflexivity.
Qed.

(** [inet_ntop] writes back the text [inet_pton] accepted. *)
Lemma inet_ntop_pton4 src a : inet_pton4 src = Some a -> inet_ntop a = src.
Proof.
  intros H. symmetry.
  apply (inet_pton4_loop_text src [] 0%N false 0%nat a); auto.
Qed.

(** ** Entries that do not match *)

(** X3. When no entry of the configuration matches the host name, the
    lookup reports no override. *)
Theorem no_matching_entry_no_override inet_pton e heap_ok node entries :
  getenv e CURSOR_DNS_OVERRIDES = Some (join entries) ->
  Forall comma_free entries ->
  Forall (fun u => ~ entry_matches u node) entries ->
  lookup_override inet_pton e heap_ok (Some node) = None.
Proof.
  intros He Hcf Hno.
  destruct heap_ok; [|apply lookup_absent; now right; right].
  rewrite (lookup_override_scan inet_pton e node entries He Hcf).
  rewrite <- (app_nil_r entries).
  rewrite scan_app_continue; [reflexivity|].
  eapply Forall_impl; [|exact Hno].
  intros u Hu. now apply lookup_entry_continue.
Qed.

Lemma no_matching_entry_no_override_witness :
  lookup_override inet_pton4
    (env_of (cs "other.test=10.0.0.1,*.blocked.test=127.0.0.1,bad"))
    true (Some (cs "example.org"))
  = None.
Proof.
  apply (no_matching_entry_no_override inet_pton4
           (env_of (cs "other.test=10.0.0.1,*.blocked.test=127.0.0.1,bad"))
           true (cs "example.org")
           [cs "other.test=10.0.0.1"; cs "*.blocked.test=127.0.0.1"; cs "bad"]).
  - reflexivity.
  - all_comma_free.
  - no_entry_matches.
Defined.

(** X4. An entry that does not match the host name has no influence on the
    lookup of that host, wherever it stands: the result is the one of the
    configuration without it. *)
Theorem other_entries_ignored inet_pton e heap_ok node pre t post :
  Forall comma_free pre -> comma_free t -> Forall comma_free post ->
  ~ entry_matches t node ->
  getenv e CURSOR_DNS_OVERRIDES = Some (join (pre ++ t :: post)) ->
  lookup_override inet_pton e heap_ok (Some node)
  = lookup_override inet_pton (env_of (join (pre ++ post))) heap_ok
      (Some node).
Proof.
  intros Hpre Ht Hpost Hn He.
  destruct heap_ok;
    [|rewrite !(lookup_absent inet_pton _ false) by (now right; right);
      reflexivity].
  rewrite (lookup_override_scan inet_pton e node _ He)
    by (apply Forall_app; split; [assumption | now constructor]).
  rewrite lookup_env_of by (apply Forall_app; now split).
  apply scan_skip. now apply lookup_entry_continue.
Qed.

Lemma other_entries_ignored_witness :
  lookup_override inet_pton4
    (env_of (cs "a=1.1.1.1,*.b=2.2.2.2,a=3.3.3.3")) true (Some (cs "a"))
  = lookup_override inet_pton4
      (env_of (cs "a=1.1.1.1,a=3.3.3.3")) true (Some (cs "a")).
Proof.
  apply (other_entries_ignored inet_pton4
           (env_of (cs "a=1.1.1.1,*.b=2.2.2.2,a=3.3.3.3")) true (cs "a")
           [cs "a=1.1.1.1"] (cs "*.b=2.2.2.2") [cs "a=3.3.3.3"]).
  - all_comma_free.
  - not_in.
  - all_comma_free.
  - apply (lookup_entry_continue inet_pton4). vm_compute. reflexivity.
  - reflexivity.
Defined.

(** ** The interceptor: the cached pointer, the address text *)

(** X6. The lazy binding is made once: after a first call in which [dlsym]
    finds the real resolver, the static pointer holds it, and a later call
    uses it without asking [dlsym] again, whatever [dlsym] would answer
    then; the pointer keeps its value. *)
Theorem lazy_binding_sticks inet_pton (res_ptr R : Type)
    (dlsym1 dlsym2 dlsym3 : cstring -> option (resolver res_ptr R)) real
    e1 heap1 node1 service1 hints1 res1
    e2 heap2 node2 service2 hints2 res2 :
  dlsym1 (cs "getaddrinfo") = Some real ->
  let cell1 :=
    fst (getaddrinfo inet_pton dlsym1 None e1 heap1 node1 service1 hints1 res1)
  in
  cell1 = Some real /\
  getaddrinfo inet_pton dlsym2 cell1 e2 heap2 node2 service2 hints2 res2
  = getaddrinfo inet_pton dlsym3 cell1 e2 heap2 node2 service2 hints2 res2 /\
  fst (getaddrinfo inet_pton dlsym2 cell1 e2 heap2 node2 service2 hints2 res2)
  = Some real.
Proof.
  intros Hd cell1.
  assert (H1 : cell1 = Some real).
  { unfold cell1. rewrite getaddrinfo_cell. exact Hd. }
  rewrite H1. split; [reflexivity|]. split.
  - reflexivity.
  - now rewrite getaddrinfo_cell.
Qed.

Lemma lazy_binding_sticks_witness :
  fst (getaddrinfo inet_pton4 (fun _ => None)
         (fst (getaddrinfo inet_pton4 dlsym_echo None [] true
                 (Some (cs "example.org")) None None tt))
         (env_of (cs "foo.test=203.0.113.9")) true
         (Some (cs "foo.test")) None None tt)
  = Some echo.
Proof.
  refine (proj2 (proj2 (lazy_binding_sticks inet_pton4 unit request
            dlsym_echo (fun _ => None) dlsym_echo echo
            [] true (Some (cs "example.org")) None None tt
            (env_of (cs "foo.test=203.0.113.9")) true
            (Some (cs "foo.test")) None None tt _))).
  reflexivity.
Defined.

(** X8. With the C library's [inet_pton], the host name handed to the real
    resolver on the override path is, byte for byte, the address text of
    the entry that matched: what [inet_ntop] writes is what [inet_pton]
    accepted. *)
Theorem override_host_is_entry_text (res_ptr R : Type)
    (dlsym_next : cstring -> option (resolver res_ptr R))
    cell real e n pre pattern ip post service hints res a :
  bind_real dlsym_next cell = Some real ->
  Forall comma_free pre -> Forall comma_free post ->
  is_pattern pattern -> comma_free ip ->
  Forall (fun u => ~ entry_matches u n) pre ->
  pattern_matches pattern n ->
  inet_pton4 ip = Some a ->
  getenv e CURSOR_DNS_OVERRIDES
  = Some (join (pre ++ entry pattern ip :: post)) ->
  getaddrinfo inet_pton4 dlsym_next cell e true (Some n) service hints res
  = (Some real,
     Some (real (Some ip) service
             (Some {| ai_flags := AI_NUMERICHOST;
                      ai_family := AF_INET;
                      ai_socktype :=
                        match hints with
                        | Some h => ai_socktype h
                        | None => SOCK_STREAM
                        end;
                      ai_protocol :=
                        match hints with
                        | Some h => ai_protocol h
                        | None => 0
                        end;
                      ai_addrlen := 0; ai_addr := 0;
                      ai_canonname := 0; ai_next := 0 |}) res)).
Proof.
  intros Hb Hpre Hpost Hpat Hip Hno Hm Ha He.
  rewrite <- (inet_ntop_pton4 ip a Ha).
  apply getaddrinfo_override; [exact Hb|].
  rewrite <- Ha.
  now apply (lookup_first_match inet_pton4 e n pre pattern ip post).
Qed.

Lemma override_host_is_entry_text_witness :
  getaddrinfo inet_pton4 dlsym_echo None
    (env_of (cs "b=9.9.9.9,*.blocked.test=127.0.0.1,x=1.1.1.1")) true
    (Some (cs "x.y.blocked.test")) (Some (cs "443")) None tt
  = (Some echo,
     Some (Some (cs "127.0.0.1"), Some (cs "443"),
           Some (mk_addrinfo AI_NUMERICHOST AF_INET SOCK_STREAM 0 0 0 0 0))).
Proof.
  refine (override_host_is_entry_text unit request dlsym_echo None echo
            (env_of (cs "b=9.9.9.9,*.blocked.test=127.0.0.1,x=1.1.1.1"))
            (cs "x.y.blocked.test") [cs "b=9.9.9.9"] (cs "*.blocked.test")
            (cs "127.0.0.1") [cs "x=1.1.1.1"] (Some (cs "443")) None tt
            (mk_in_addr "127" "000" "000" "001") _ _ _ _ _ _ _ _ _).
  - reflexivity.
  - all_comma_free.
  - all_comma_free.
  - split; not_in.
  - not_in.
  - no_entry_matches.
  - right. exists (cs "blocked.test"). split; [reflexivity|].
    apply ends_withb_spec. reflexivity.
  - reflexivity.
  - reflexivity.
Defined.

(** ** Memory: blocks, strings, the fresh block *)

Lemma update_app_last {A : Type} (l : list A) (x y : A) :
  update (length l) y (l ++ [x]) = l ++ [y].
Proof. induction l as [|z l IH]; cbn; [reflexivity | now rewrite IH]. Qed.

Lemma update_middle {A : Type} (l r : list A) (x y : A) :
  update (length l) y (l ++ x :: r) = l ++ y :: r.
Proof. induction l as [|z l IH]; cbn; [reflexivity | now rewrite IH]. Qed.

Lemma nth_error_middle {A : Type} (l r : list A) (x : A) :
  nth_error (l ++ x :: r) (length l) = Some x.
Proof. induction l as [|z l IH]; cbn; [reflexivity | exact IH]. Qed.

Lemma skipn_middle {A : Type} (l r : list A) : skipn (length l) (l ++ r) = r.
Proof. induction l as [|z l IH]; cbn; [reflexivity | exact IH]. Qed.

Lemma bytes_of_new m bs : bytes_of (m ++ [Some bs]) (length m) = Some bs.
Proof. unfold bytes_of. now rewrite nth_error_middle. Qed.

Lemma bytes_of_old m x b bs :
  bytes_of m b = Some bs -> bytes_of (m ++ [x]) b = Some bs.
Proof.
  unfold bytes_of. intros H.
  destruct (nth_error m b) as [o|] eqn:E; [|discriminate].
  rewrite nth_error_app1 by (apply nth_error_Some; congruence).
  now rewrite E.
Qed.

Lemma nul_free_app s t : nul_free (s ++ t) <-> nul_free s /\ nul_free t.
Proof.
  unfold nul_free. split.
  - intros H. split; intros Hin; apply H, in_or_app; tauto.
  - intros [Hs Ht] Hin. apply in_app_or in Hin. tauto.
Qed.

Lemma nul_free_cons c s : nul_free (c :: s) <-> c <> NUL /\ nul_free s.
Proof.
  unfold nul_free. cbn [In]. split.
  - intros H. split; [intros ->; tauto | tauto].
  - intros [Hc Hs] [H|H]; [now apply Hc | tauto].
Qed.

Lemma nul_free_firstn k s : nul_free s -> nul_free (firstn k s).
Proof.
  intros H. rewrite <- (firstn_skipn k s) in H. now apply nul_free_app in H.
Qed.

Lemma nul_free_skipn k s : nul_free s -> nul_free (skipn k s).
Proof.
  intros H. rewrite <- (firstn_skipn k s) in H. now apply nul_free_app in H.
Qed.

Lemma until_nul_app s r : nul_free s -> until_nul (s ++ NUL :: r) = Some s.
Proof.
  induction s as [|c s IH]; intros H; cbn [app until_nul].
  - now rewrite Ascii.eqb_refl.
  - apply nul_free_cons in H. destruct H as [Hc Hs].
    rewrite (proj2 (eqb_neq c NUL) Hc), IH by assumption. reflexivity.
Qed.

Lemma until_nul_some bs s :
  until_nul bs = Some s -> nul_free s /\ exists r, bs = s ++ NUL :: r.
Proof.
  revert s; induction bs as [|c bs IH]; intros s; cbn [until_nul];
    [discriminate|].
  destruct (Ascii.eqb_spec c NUL) as [->|Hne].
  - intros [= <-]. split; [intros []|]. now exists bs.
  - destruct (until_nul bs) as [t|]; [|discriminate]. cbn [option_map].
    intros [= <-]. destruct (IH t eq_refl) as [Ht [r ->]]. split.
    + now apply nul_free_cons.
    + now exists r.
Qed.

(** The string in the fresh block, after the bytes [l]. *)
Lemma string_at_new m l s r :
  nul_free s ->
  string_at (m ++ [Some (l ++ s ++ NUL :: r)]) (mk_ptr (length m) (length l))
  = Some s.
Proof.
  intros H. unfold string_at. cbn [blk off].
  now rewrite bytes_of_new, skipn_middle, until_nul_app.
Qed.

(** The strings of the blocks that were there stay readable. *)
Lemma string_at_old m x p s :
  string_at m p = Some s -> string_at (m ++ [x]) p = Some s.
Proof.
  unfold string_at. intros H.
  destruct (bytes_of m (blk p)) as [bs|] eqn:E; [|discriminate].
  now rewrite (bytes_of_old m x _ bs E).
Qed.

Lemma string_at_nul_free m p s : string_at m p = Some s -> nul_free s.
Proof.
  unfold string_at. destruct (bytes_of m (blk p)); [|discriminate].
  intros H. now apply until_nul_some in H.
Qed.

Lemma string_at_shift m p s k :
  string_at m p = Some s -> (k <= length s)%nat ->
  string_at m (shift p k) = Some (skipn k s).
Proof.
  unfold string_at, shift. cbn [blk off].
  destruct (bytes_of m (blk p)) as [bs|]; [|discriminate].
  intros H Hk. destruct (until_nul_some _ _ H) as [Hs [r E]].
  rewrite Nat.add_comm, <- skipn_skipn, E.
  rewrite skipn_app, (proj2 (Nat.sub_0_le k (length s)) Hk). cbn [skipn].
  apply until_nul_app. now apply nul_free_skipn.
Qed.

Lemma load_new m l c r :
  load (m ++ [Some (l ++ c :: r)]) (mk_ptr (length m) (length l)) = Some c.
Proof.
  unfold load. cbn [blk off]. now rewrite bytes_of_new, nth_error_middle.
Qed.

Lemma store_new m l c r x :
  store (m ++ [Some (l ++ c :: r)]) (mk_ptr (length m) (length l)) x
  = Some (m ++ [Some (l ++ x :: r)]).
Proof.
  unfold store. cbn [blk off]. rewrite bytes_of_new.
  rewrite (proj2 (Nat.ltb_lt _ _))
    by (rewrite length_app; cbn [length]; lia).
  now rewrite update_app_last, update_middle.
Qed.

Lemma strspn_le s d : (strspn s d <= length s)%nat.
Proof.
  induction s as [|c s IH]; cbn [strspn length]; [lia|].
  destruct (is_delim d c); lia.
Qed.

Lemma strcspn_le s d : (strcspn s d <= length s)%nat.
Proof.
  induction s as [|c s IH]; cbn [strcspn length]; [lia|].
  destruct (is_delim d c); lia.
Qed.

Lemma strchr_lt s c i : strchr s c = Some i -> (i < length s)%nat.
Proof.
  revert i; induction s as [|d s IH]; intros i; cbn [strchr length];
    [discriminate|].
  destruct (Ascii.eqb d c); [intros [= <-]; lia|].
  destruct (strchr s c) as [j|]; [|discriminate]. cbn [option_map].
  intros [= <-]. specialize (IH j eq_refl). lia.
Qed.

(** ** Tokenising the working copy in place *)

(** [strtok_r] on the working copy against [strtok_r] on strings.  The
    block holds [l], the text [rest] still to be cut, and the final NUL;
    afterwards it holds [l'], the token, its terminator [x] (the NUL
    written over the comma, or nothing when the token runs to the final
    NUL), the text left, and the final NUL. *)
Lemma strtok_r_m_spec m l rest :
  nul_free rest ->
  match strtok_r None (cs ",") rest with
  | (None, _) =>
      exists sp,
        strtok_r_m (m ++ [Some (l ++ rest ++ [NUL])]) None (cs ",")
          (mk_ptr (length m) (length l))
        = Some (None, sp, m ++ [Some (l ++ rest ++ [NUL])])
  | (Some tk, rest') =>
      exists l' x,
        (x = [NUL] \/ (x = [] /\ rest' = [])) /\
        nul_free tk /\ nul_free rest' /\
        (length rest' < length rest)%nat /\
        strtok_r_m (m ++ [Some (l ++ rest ++ [NUL])]) None (cs ",")
          (mk_ptr (length m) (length l))
        = Some (Some (mk_ptr (length m) (length l')),
                mk_ptr (length m) (length (l' ++ tk ++ x)),
                m ++ [Some (l' ++ tk ++ x ++ rest' ++ [NUL])])
  end.
Proof.
  intros Hnf. unfold strtok_r, strtok_r_m.
  rewrite (string_at_new m l rest [] Hnf).
  set (k := strspn rest (cs ",")).
  pose proof (strspn_le rest (cs ",")) as Hk. fold k in Hk.
  rewrite (string_at_shift _ _ rest k (string_at_new m l rest [] Hnf) Hk).
  pose proof (firstn_skipn k rest) as Ek.
  pose proof (length_skipn k rest) as Lk.
  destruct (skipn k rest) as [|c t] eqn:Es2.
  { eexists. reflexivity. }
  set (s2 := c :: t) in *.
  set (n := strcspn s2 (cs ",")).
  pose proof (strcspn_le s2 (cs ",")) as Hn. fold n in Hn.
  pose proof (firstn_skipn n s2) as En.
  pose proof (length_skipn n s2) as Ln.
  assert (Hs2 : nul_free s2) by (rewrite <- Es2; now apply nul_free_skipn).
  assert (Hlen : (0 < length s2)%nat) by (unfold s2; cbn [length]; lia).
  assert (Hp : shift (shift (mk_ptr (length m) (length l)) k) n
               = mk_ptr (length m) (length (l ++ firstn k rest ++ firstn n s2))).
  { unfold shift. cbn [blk off]. f_equal.
    rewrite !length_app, !length_firstn. lia. }
  rewrite Hp.
  assert (Hp1 : shift (mk_ptr (length m) (length l)) k
                = mk_ptr (length m) (length (l ++ firstn k rest))).
  { unfold shift. cbn [blk off]. f_equal.
    rewrite length_app, length_firstn. lia. }
  destruct (skipn n s2) as [|d rest'] eqn:Er.
  - (* the token runs to the final NUL *)
    rewrite app_nil_r in En.
    assert (Eb : l ++ rest ++ [NUL]
                 = (l ++ firstn k rest ++ firstn n s2) ++ NUL :: []).
    { rewrite <- !app_assoc. f_equal. now rewrite En, app_assoc, Ek. }
    exists (l ++ firstn k rest), [].
    split; [right; now split|]. split; [exact Hs2|]. split; [intros []|].
    split; [cbn [length] in *; lia|].
    rewrite Eb at 1. rewrite load_new, Ascii.eqb_refl.
    replace ((l ++ firstn k rest) ++ s2 ++ [] ++ [] ++ [NUL])
      with (l ++ rest ++ [NUL])
      by (cbn [app]; rewrite <- app_assoc; f_equal; now rewrite app_assoc, Ek).
    rewrite Hp1.
    replace (length ((l ++ firstn k rest) ++ s2 ++ []))
      with (length (l ++ firstn k rest ++ firstn n s2))
      by (now rewrite En, app_nil_r, <- app_assoc).
    reflexivity.
  - (* the token ends at a comma *)
    assert (Eb : l ++ rest ++ [NUL]
                 = (l ++ firstn k rest ++ firstn n s2) ++ d :: rest' ++ [NUL]).
    { rewrite <- !app_assoc. f_equal.
      replace (firstn n s2 ++ d :: rest' ++ [NUL]) with (s2 ++ [NUL])
        by (rewrite <- En at 1; now rewrite <- !app_assoc).
      now rewrite app_assoc, Ek. }
    assert (Hr : nul_free (d :: rest'))
      by (rewrite <- Er; now apply nul_free_skipn).
    apply nul_free_cons in Hr. destruct Hr as [Hd Hrest'].
    exists (l ++ firstn k rest), [NUL].
    split; [now left|]. split; [now apply nul_free_firstn|].
    split; [exact Hrest'|]. split; [cbn [length] in *; lia|].
    rewrite Eb at 1. rewrite load_new, (proj2 (eqb_neq d NUL) Hd).
    rewrite Eb at 1. rewrite store_new, Hp1.
    replace ((l ++ firstn k rest) ++ firstn n s2 ++ [NUL] ++ rest' ++ [NUL])
      with ((l ++ firstn k rest ++ firstn n s2) ++ NUL :: rest' ++ [NUL])
      by (now rewrite <- !app_assoc).
    replace (shift (mk_ptr (length m)
                      (length (l ++ firstn k rest ++ firstn n s2))) 1)
      with (mk_ptr (length m)
              (length ((l ++ firstn k rest) ++ firstn n s2 ++ [NUL])))
      by (unfold shift; cbn [blk off]; f_equal;
          rewrite !length_app; cbn [length]; lia).
    reflexivity.
Qed.

Lemma load_first m l s r :
  load (m ++ [Some (l ++ s ++ NUL :: r)]) (mk_ptr (length m) (length l))
  = Some (nth 0 s NUL).
Proof.
  destruct s as [|c s]; cbn [app nth]; apply load_new.
Qed.

(** The loop body on the working copy against the loop body on strings:
    the block holds [l], the token and its terminator; afterwards the bytes
    of the token may have a NUL where its [=] was. *)
Lemma lookup_entry_m_spec inet_pton m l tk r node_p node :
  nul_free tk ->
  string_at m node_p = Some node ->
  exists tk',
    length tk' = length tk /\
    lookup_entry_m inet_pton (m ++ [Some (l ++ tk ++ NUL :: r)]) node_p
      (mk_ptr (length m) (length l))
    = Some (lookup_entry inet_pton node tk,
            m ++ [Some (l ++ tk' ++ NUL :: r)]).
Proof.
  intros Htk Hnode. unfold lookup_entry_m, strchr_m, lookup_entry.
  rewrite (string_at_new m l tk r Htk).
  destruct (strchr tk "="%char) as [i|] eqn:E; cbn [option_map].
  2:{ exists tk. now split. }
  destruct (strchr_some _ _ _ E) as [Ht Hhost].
  pose proof (strchr_lt _ _ _ E) as Hi.
  set (host := firstn i tk) in *. set (ip := skipn (S i) tk) in *.
  assert (Lh : length host = i) by (unfold host; rewrite length_firstn; lia).
  assert (Nh : nul_free host) by now apply nul_free_firstn.
  assert (Ni : nul_free ip) by now apply nul_free_skipn.
  exists (host ++ NUL :: ip).
  split.
  { transitivity (length (host ++ "="%char :: ip));
      [rewrite !length_app; reflexivity | now rewrite <- Ht]. }
  (* the store of NUL over the [=] *)
  replace (shift (mk_ptr (length m) (length l)) i)
    with (mk_ptr (length m) (length (l ++ host)))
    by (unfold shift; cbn [blk off]; now rewrite length_app, Lh).
  replace (l ++ tk ++ NUL :: r)
    with ((l ++ host) ++ "="%char :: ip ++ NUL :: r)
    by (rewrite <- app_assoc; f_equal;
        transitivity ((host ++ "="%char :: ip) ++ NUL :: r);
        [now rewrite <- app_assoc | now rewrite <- Ht]).
  rewrite store_new.
  set (m1 := m ++ [Some ((l ++ host) ++ NUL :: ip ++ NUL :: r)]).
  assert (Sh : string_at m1 (mk_ptr (length m) (length l)) = Some host).
  { unfold m1. rewrite <- app_assoc. now apply string_at_new. }
  assert (Si : string_at m1 (shift (mk_ptr (length m) (length (l ++ host))) 1)
               = Some ip).
  { unfold m1.
    replace (shift (mk_ptr (length m) (length (l ++ host))) 1)
      with (mk_ptr (length m) (length ((l ++ host) ++ [NUL])))
      by (unfold shift; cbn [blk off]; f_equal;
          rewrite !length_app; cbn [length]; lia).
    replace ((l ++ host) ++ NUL :: ip ++ NUL :: r)
      with (((l ++ host) ++ [NUL]) ++ ip ++ NUL :: r)
      by (now rewrite <- !app_assoc).
    now apply string_at_new. }
  assert (Sn : string_at m1 node_p = Some node)
    by (unfold m1; now apply string_at_old).
  assert (L0 : load m1 (mk_ptr (length m) (length l))
               = Some (nth 0 host NUL)).
  { unfold m1. rewrite <- app_assoc. apply load_first. }
  replace (l ++ (host ++ NUL :: ip) ++ NUL :: r)
    with ((l ++ host) ++ NUL :: ip ++ NUL :: r)
    by (now rewrite <- !app_assoc).
  fold m1.
  unfold strcmp_m. rewrite Sh, Sn.
  destruct (strcmp host node =? 0); [now rewrite Si|].
  rewrite L0.
  destruct (Ascii.eqb (nth 0 host NUL) "*"%char) eqn:E0; cbn [andb];
    [|reflexivity].
  destruct host as [|a h'] eqn:Eh; [discriminate E0|].
  cbn [nth] in *.
  assert (L1 : load m1 (shift (mk_ptr (length m) (length l)) 1)
               = Some (nth 0 h' NUL)).
  { unfold m1.
    replace (shift (mk_ptr (length m) (length l)) 1)
      with (mk_ptr (length m) (length (l ++ [a])))
      by (unfold shift; cbn [blk off]; f_equal;
          rewrite length_app; cbn [length]; lia).
    replace ((l ++ a :: h') ++ NUL :: ip ++ NUL :: r)
      with ((l ++ [a]) ++ h' ++ NUL :: ip ++ NUL :: r)
      by (now rewrite <- !app_assoc).
    apply load_first. }
  rewrite L1.
  replace (nth 1 (a :: h') NUL) with (nth 0 h' NUL) by reflexivity.
  destruct (Ascii.eqb (nth 0 h' NUL) "."%char); [|reflexivity].
  assert (Ss : string_at m1 (shift (mk_ptr (length m) (length l)) 1)
               = Some h').
  { apply (string_at_shift m1 _ (a :: h') 1 Sh). cbn [length]. lia. }
  unfold strlen_m. rewrite Ss, Sn. cbn [option_map skipn]. unfold strlen.
  destruct (length h' <=? length node)%nat eqn:El; cbn [andb];
    [|reflexivity].
  apply Nat.leb_le in El.
  rewrite (string_at_shift m1 node_p node (length node - length h') Sn)
    by lia.
  destruct (strcmp (skipn (length node - length h') node) h' =? 0);
    [now rewrite Si | reflexivity].
Qed.

(** The loop on the working copy computes what the loop on strings
    computes, and touches the working copy only. *)
Lemma run_m_spec inet_pton m node_p node :
  string_at m node_p = Some node ->
  forall turns rest l,
    nul_free rest -> (length rest <= turns)%nat ->
    exists bs',
      run_m inet_pton turns (m ++ [Some (l ++ rest ++ [NUL])]) node_p
        (mk_ptr (length m) (length l))
      = Some (run inet_pton node rest, m ++ [Some bs']).
Proof.
  intros Hnode. induction turns as [|t IH]; intros rest l Hnf Hlen;
    unfold run_m; pose proof (strtok_r_m_spec m l rest Hnf) as H;
    rewrite run_unfold;
    destruct (strtok_r None (cs ",") rest) as [[tk|] rest'].
  - destruct H as [l' [x [_ [_ [_ [Hlt _]]]]]]. lia.
  - destruct H as [sp ->]. eexists. reflexivity.
  - destruct H as [l' [x [Hx [Htk [Hrest' [Hlt ->]]]]]].
    cbn [lookup_loop_m].
    assert (Hr : exists r, x ++ rest' ++ [NUL] = NUL :: r).
    { destruct Hx as [->|[-> ->]]; eexists; reflexivity. }
    destruct Hr as [r Er]. rewrite Er.
    destruct (lookup_entry_m_spec inet_pton m l' tk r node_p node Htk Hnode)
      as [tk' [Ltk ->]].
    destruct (lookup_entry inet_pton node tk) as [|found].
    + replace (l' ++ tk' ++ NUL :: r) with ((l' ++ tk' ++ x) ++ rest' ++ [NUL])
        by (rewrite <- Er, <- !app_assoc; reflexivity).
      replace (length (l' ++ tk ++ x)) with (length (l' ++ tk' ++ x))
        by (rewrite !length_app; lia).
      apply (IH rest' (l' ++ tk' ++ x) Hrest'). lia.
    + eexists. reflexivity.
  - destruct H as [sp ->]. eexists. reflexivity.
Qed.

Lemma getenv_m_environ_at p :
  getenv_m (environ_at p) CURSOR_DNS_OVERRIDES = Some p.
Proof. reflexivity. Qed.

(** [lookup_override] on memory: its result is the one of the lookup on
    strings, a function of the configuration string and the host name,
    and the memory it leaves is the memory it found, with the block of the
    working copy freed. *)
Lemma lookup_override_m_spec inet_pton e m saveptr cfg_p node_p cfg node :
  getenv_m e CURSOR_DNS_OVERRIDES = Some cfg_p ->
  string_at m cfg_p = Some cfg ->
  string_at m node_p = Some node ->
  lookup_override_m inet_pton e true m saveptr (Some node_p)
  = Some (lookup_override inet_pton (env_of cfg) true (Some node),
          m ++ [None]).
Proof.
  intros He Hcfg Hnode. unfold lookup_override_m, strdup_m, alloc.
  change (cs "CURSOR_DNS_OVERRIDES") with CURSOR_DNS_OVERRIDES.
  rewrite He, Hcfg.
  pose proof (string_at_nul_free _ _ _ Hcfg) as Hnf.
  unfold strlen_m.
  assert (Hb : string_at (m ++ [Some (cfg ++ [NUL])]) (mk_ptr (length m) 0)
               = Some cfg) by exact (string_at_new m [] cfg [] Hnf).
  rewrite Hb. cbn [option_map].
  destruct (run_m_spec inet_pton m node_p node Hnode (length cfg) cfg []
              Hnf (le_n _)) as [bs' Hrun].
  unfold run_m in Hrun.
  change (strtok_r_m (m ++ [Some (cfg ++ [NUL])])
            (Some (mk_ptr (length m) 0)) (cs ",") saveptr)
    with (strtok_r_m (m ++ [Some ([] ++ cfg ++ [NUL])]) None (cs ",")
            (mk_ptr (length m) (length (@nil ascii)))).
  destruct (strtok_r_m (m ++ [Some ([] ++ cfg ++ [NUL])]) None (cs ",")
              (mk_ptr (length m) (length (@nil ascii))))
    as [[[tok sp] m2]|]; [|discriminate Hrun].
  rewrite Hrun. unfold free. cbn [blk].
  rewrite update_app_last.
  now rewrite (lookup_override_run inet_pton (env_of cfg) node cfg
                 (getenv_env_of cfg)).
Qed.

(** ** The lookup as a function of its surroundings *)

(** C7, as the code has it.  [lookup_override] is a pure, deterministic
    function of two inputs, the configuration string and the host name,
    without side effects and without shared mutable state; but it is the
    lookup itself that reads the configuration string from the process
    environment, its caller hands it the host name only.  On memory: when
    the environment has the configuration string [cfg] and the host name
    is [node], the call returns the result of the lookup on these two
    strings and leaves the memory it found, with the block of its working
    copy freed, so every string in memory reads as before; nothing is
    changed either when the allocation fails or the host name is NULL; and
    two calls, in any two memories and environments, that find the same
    configuration string and are given the same host name return the same
    result. *)
Theorem lookup_pure_reads_environment inet_pton e m saveptr
    cfg_p node_p cfg node :
  getenv_m e CURSOR_DNS_OVERRIDES = Some cfg_p ->
  string_at m cfg_p = Some cfg ->
  string_at m node_p = Some node ->
  lookup_override_m inet_pton e true m saveptr (Some node_p)
  = Some (lookup_override inet_pton (env_of cfg) true (Some node),
          m ++ [None]) /\
  (forall p s, string_at m p = Some s -> string_at (m ++ [None]) p = Some s) /\
  lookup_override_m inet_pton e false m saveptr (Some node_p)
  = Some (None, m) /\
  (forall heap_ok, lookup_override_m inet_pton e heap_ok m saveptr None
                   = Some (None, m)) /\
  (forall e' m' saveptr' cfg_p' node_p',
      getenv_m e' CURSOR_DNS_OVERRIDES = Some cfg_p' ->
      string_at m' cfg_p' = Some cfg ->
      string_at m' node_p' = Some node ->
      option_map fst
        (lookup_override_m inet_pton e' true m' saveptr' (Some node_p'))
      = option_map fst
          (lookup_override_m inet_pton e true m saveptr (Some node_p))).
Proof.
  intros He Hcfg Hnode.
  split; [|split; [|split; [|split]]].
  - exact (lookup_override_m_spec inet_pton e m saveptr cfg_p node_p
             cfg node He Hcfg Hnode).
  - intros p s. apply string_at_old.
  - unfold lookup_override_m, strdup_m.
    change (cs "CURSOR_DNS_OVERRIDES") with CURSOR_DNS_OVERRIDES.
    now rewrite He, Hcfg.
  - intros heap_ok. unfold lookup_override_m.
    now destruct (getenv_m e (cs "CURSOR_DNS_OVERRIDES")).
  - intros e' m' saveptr' cfg_p' node_p' He' Hcfg' Hnode'.
    rewrite (lookup_override_m_spec inet_pton e' m' saveptr' cfg_p' node_p'
               cfg node He' Hcfg' Hnode').
    now rewrite (lookup_override_m_spec inet_pton e m saveptr cfg_p node_p
                   cfg node He Hcfg Hnode).
Qed.

Lemma lookup_pure_reads_environment_witness :
  lookup_override_m inet_pton4 (environ_at (mk_ptr 0 0)) true
    (memory_of (cs "x,b=2.2.2.2,*.test=10.0.0.7,foo.test=3.3.3.3")
       (cs "foo.test"))
    (mk_ptr 7 7) (Some (mk_ptr 1 0))
  = Some (lookup_override inet_pton4
            (env_of (cs "x,b=2.2.2.2,*.test=10.0.0.7,foo.test=3.3.3.3"))
            true (Some (cs "foo.test")),
          memory_of (cs "x,b=2.2.2.2,*.test=10.0.0.7,foo.test=3.3.3.3")
            (cs "foo.test") ++ [None]).
Proof.
  refine (proj1 (lookup_pure_reads_environment inet_pton4
            (environ_at (mk_ptr 0 0))
            (memory_of (cs "x,b=2.2.2.2,*.test=10.0.0.7,foo.test=3.3.3.3")
               (cs "foo.test"))
            (mk_ptr 7 7) (mk_ptr 0 0) (mk_ptr 1 0)
            (cs "x,b=2.2.2.2,*.test=10.0.0.7,foo.test=3.3.3.3")
            (cs "foo.test") _ _ _)).
  - reflexivity.
  - reflexivity.
  - reflexivity.
Defined.

(** C7, as the specification words it, fails: the configuration string is
    not handed in by the caller.  The same call, with the same host name,
    finds the override in one process environment and none in another,
    because [lookup_override] reads the environment itself. *)
Lemma lookup_reads_environment :
  ~ independent_of_environment (lookup_override inet_pton4).
Proof.
  intros H.
  specialize (H (env_of (cs "a=1.1.1.1")) [] true (Some (cs "a"))).
  vm_compute in H. discriminate H.
Qed.

(** The memory-level lookup at work, on a configuration with a token
    without [=], a wildcard entry and an exact entry. *)
Example lookup_override_m_sample :
  lookup_override_m inet_pton4 (environ_at (mk_ptr 0 0)) true
    (memory_of (cs "x,b=2.2.2.2,*.test=10.0.0.7,foo.test=3.3.3.3")
       (cs "foo.test"))
    (mk_ptr 7 7) (Some (mk_ptr 1 0))
  = Some (Some (mk_in_addr "010" "000" "000" "007"),
          memory_of (cs "x,b=2.2.2.2,*.test=10.0.0.7,foo.test=3.3.3.3")
            (cs "foo.test") ++ [None]).
Proof. vm_compute. reflexivity. Qed.
